(** * classify-waste: the edge function and its result normaliser

    A shallow embedding of the request handler of the waste classifier
    (the [serve] callback): the JavaScript values it manipulates, the
    built-ins it calls ([JSON.parse], [String.prototype.match] with the
    brace pattern, [toLowerCase], [includes], [substring], [Math.min],
    [Math.max], the [||] operator), and the handler itself as a function of
    the outside world, returning the HTTP response together with the trace
    of the effects it performed. *)

From Stdlib Require Import List NArith ZArith QArith String Ascii Bool Lia.
From Stdlib Require Import DecimalString.
Import ListNotations.

Set Implicit Arguments.
Set Warnings "-register-all".

(* ================================================================== *)
(** ** JavaScript strings, numbers and values *)
(* ================================================================== *)

Module JS.

(** A JavaScript string is a sequence of UTF-16 code units. *)
Definition code_unit := N.
Definition jsstring := list code_unit.

(** String literals of the source are ASCII; [lit] embeds them. *)
Definition lit (s : string) : jsstring :=
  map N_of_ascii (list_ascii_of_string s).

Definition str_eqb (a b : jsstring) : bool :=
  if list_eq_dec N.eq_dec a b then true else false.

(** Numbers.  A finite number is kept as the exact rational it denotes;
    the rounding to binary64 is not modelled, and [-0] is not told apart
    from [0] (both are falsy, and [Math.max (-0) 0] is [0]). *)
Inductive number :=
| NaN
| NegInf
| Fin (q : Q)
| PosInf.

(** Values as they come out of [JSON.parse], plus [undefined].  An object
    keeps its properties in source order; a later duplicate key wins. *)
Inductive value :=
| VUndefined
| VNull
| VBool (b : bool)
| VNumber (n : number)
| VString (s : jsstring)
| VArray (elems : list value)
| VObject (props : list (jsstring * value)).

(** Errors that can be thrown.  [Error msg] is [new Error(msg)] of the
    source; the others are raised by the runtime, with a message the
    engine chooses. *)
Inductive exception :=
| Error (message : jsstring)
| TypeError
| SyntaxError
| NetworkError.

(** The outcome of an expression that may throw. *)
Definition outcome (A : Type) := (exception + A)%type.

(** [ToBoolean]: the falsy values are [undefined], [null], [false], [0],
    [NaN] and the empty string. *)
Definition truthy (v : value) : bool :=
  match v with
  | VUndefined | VNull => false
  | VBool b => b
  | VNumber NaN => false
  | VNumber (Fin q) => negb (Qeq_bool q 0)
  | VNumber _ => true
  | VString s => match s with [] => false | _ => true end
  | VArray _ | VObject _ => true
  end.

(** [a || b] *)
Definition or_else (a b : value) : value := if truthy a then a else b.

(** *** Property access *)

(** The last binding of key [k], as [JSON.parse] builds objects. *)
Fixpoint lookup (k : jsstring) (props : list (jsstring * value)) : option value :=
  match props with
  | [] => None
  | (k', v) :: rest =>
      match lookup k rest with
      | Some v' => Some v'
      | None => if str_eqb k k' then Some v else None
      end
  end.

(** [v.k] for a key [k] that no prototype defines ([choices], [message],
    [content], [category], [confidence], [reasoning]): a [TypeError] on
    [null] and [undefined], the own property on an object, [undefined] on
    every other value. *)
Definition get (v : value) (k : jsstring) : outcome value :=
  match v with
  | VUndefined | VNull => inl TypeError
  | VObject props =>
      inr (match lookup k props with Some x => x | None => VUndefined end)
  | _ => inr VUndefined
  end.

(** [v?.k] *)
Definition get_opt (v : value) (k : jsstring) : value :=
  match get v k with inr x => x | inl _ => VUndefined end.

(** [v?.[0]]: the first element of an array, the first code unit of a
    string, the property ["0"] of an object. *)
Definition index0_opt (v : value) : value :=
  match v with
  | VArray (x :: _) => x
  | VString (c :: _) => VString [c]
  | VObject props =>
      match lookup (lit "0") props with Some x => x | None => VUndefined end
  | _ => VUndefined
  end.

(** *** Strings *)

(** [toLowerCase] on one code unit.  ASCII capitals map to their small
    letters; U+0130 maps to [i] followed by U+0307 and the Kelvin sign
    U+212A to [k].  Every other cased letter maps to a letter outside
    ASCII; those are left as they are, which changes no comparison with
    the ASCII labels the handler compares against. *)
Definition lower_unit (c : code_unit) : jsstring :=
  if ((65 <=? c) && (c <=? 90))%N then [(c + 32)%N]
  else if (c =? 304)%N then [105%N; 775%N]
  else if (c =? 8490)%N then [107%N]
  else [c].

Definition toLowerCase (s : jsstring) : jsstring := flat_map lower_unit s.

Fixpoint startsWith (s p : jsstring) {struct p} : bool :=
  match p with
  | [] => true
  | a :: p' =>
      match s with
      | [] => false
      | b :: s' => (a =? b)%N && startsWith s' p'
      end
  end.

(** [s.includes(p)] *)
Fixpoint includes (s p : jsstring) : bool :=
  startsWith s p ||
  match s with
  | [] => false
  | _ :: s' => includes s' p
  end.

(** [s.substring(0, n)] *)
Definition substring0 (s : jsstring) (n : nat) : jsstring := firstn n s.

(** [xs.find(p)], [undefined] when no element satisfies [p]. *)
Definition find_value (p : jsstring -> bool) (xs : list jsstring) : value :=
  match find p xs with
  | Some x => VString x
  | None => VUndefined
  end.

(** *** Numeric conversion *)

Definition is_digit (c : code_unit) : bool := ((48 <=? c) && (c <=? 57))%N.

(** The longest prefix of decimal digits, and what follows it. *)
Fixpoint span_digits (s : jsstring) : jsstring * jsstring :=
  match s with
  | c :: rest =>
      if is_digit c
      then let (ds, tl) := span_digits rest in (c :: ds, tl)
      else ([], s)
  | [] => ([], [])
  end.

Definition digits_value (ds : jsstring) : Z :=
  fold_left (fun acc c => (10 * acc + (Z.of_N c - 48))%Z) ds 0%Z.

(** The mathematical value of the decimal literal
    [int_digits . frac_digits e exponent]. *)
Definition decimal_value (negative : bool) (int_digits frac_digits : jsstring)
    (exponent : Z) : Q :=
  let m := digits_value (int_digits ++ frac_digits) in
  let e := (exponent - Z.of_nat (List.length frac_digits))%Z in
  (if negative then inject_Z (- m) else inject_Z m) * Qpower (10 # 1) e.

(** An optional exponent part [e], [e+] or [e-] followed by digits.  Returns
    the exponent and the rest, [(0, s)] if [s] does not start with one. *)
Definition exponent_part (s : jsstring) : Z * jsstring :=
  match s with
  | c :: rest =>
      if ((c =? 101) || (c =? 69))%N then
        let (negative, rest') :=
          match rest with
          | 43%N :: r => (false, r)
          | 45%N :: r => (true, r)
          | _ => (false, rest)
          end in
        match span_digits rest' with
        | ([], _) => (0%Z, s)
        | (ds, tl) =>
            ((if negative then - digits_value ds else digits_value ds)%Z, tl)
        end
      else (0%Z, s)
  | [] => (0%Z, s)
  end.

(** [StrWhiteSpaceChar]: white space and line terminators. *)
Definition is_str_whitespace (c : code_unit) : bool :=
  ((c =? 9) || (c =? 10) || (c =? 11) || (c =? 12) || (c =? 13) || (c =? 32)
   || (c =? 160) || (c =? 5760) || ((8192 <=? c) && (c <=? 8202))
   || (c =? 8232) || (c =? 8233) || (c =? 8239) || (c =? 8287)
   || (c =? 12288) || (c =? 65279))%N.

Fixpoint drop_while (p : code_unit -> bool) (s : jsstring) : jsstring :=
  match s with
  | c :: rest => if p c then drop_while p rest else s
  | [] => []
  end.

Definition trim (s : jsstring) : jsstring :=
  rev (drop_while is_str_whitespace (rev (drop_while is_str_whitespace s))).

(** [StrUnsignedDecimalLiteral], which must span the whole of [s]. *)
Definition unsigned_decimal (negative : bool) (s : jsstring) : number :=
  if str_eqb s (lit "Infinity") then (if negative then NegInf else PosInf)
  else
    let (int_digits, after_int) := span_digits s in
    let (frac_digits, after_frac) :=
      match after_int with
      | 46%N :: r => span_digits r
      | _ => ([], after_int)
      end in
    match int_digits, frac_digits with
    | [], [] => NaN
    | _, _ =>
        match exponent_part after_frac with
        | (e, []) => Fin (decimal_value negative int_digits frac_digits e)
        | _ => NaN
        end
    end.

Definition radix_digit (radix : N) (c : code_unit) : option N :=
  let d :=
    if is_digit c then Some (c - 48)%N
    else if ((97 <=? c) && (c <=? 102))%N then Some (c - 87)%N
    else if ((65 <=? c) && (c <=? 70))%N then Some (c - 55)%N
    else None in
  match d with
  | Some n => if (n <? radix)%N then Some n else None
  | None => None
  end.

Fixpoint radix_value (radix : N) (acc : N) (s : jsstring) : option N :=
  match s with
  | [] => Some acc
  | c :: rest =>
      match radix_digit radix c with
      | Some d => radix_value radix (radix * acc + d)%N rest
      | None => None
      end
  end.

Definition non_decimal (radix : N) (ds : jsstring) : number :=
  match ds with
  | [] => NaN
  | _ =>
      match radix_value radix 0%N ds with
      | Some n => Fin (inject_Z (Z.of_N n))
      | None => NaN
      end
  end.

(** [StringToNumber]: the number a string converts to, [NaN] when it is
    not a [StringNumericLiteral]. *)
Definition StringToNumber (s : jsstring) : number :=
  match trim s with
  | [] => Fin 0
  | 43%N :: r => unsigned_decimal false r
  | 45%N :: r => unsigned_decimal true r
  | 48%N :: 120%N :: r | 48%N :: 88%N :: r => non_decimal 16 r
  | 48%N :: 111%N :: r | 48%N :: 79%N :: r => non_decimal 8 r
  | 48%N :: 98%N :: r | 48%N :: 66%N :: r => non_decimal 2 r
  | r => unsigned_decimal false r
  end.

Definition has_key (k : jsstring) (props : list (jsstring * value)) : bool :=
  match lookup k props with Some _ => true | None => false end.

(** Whether converting [v] to a string throws.  A plain object converts
    through [Object.prototype.toString] unless an own property named
    [toString] shadows it; such a property is never callable here, the
    inherited [valueOf] returns the object itself, and the conversion ends
    in a [TypeError].  An array joins the conversions of its elements. *)
Fixpoint to_string_throws (v : value) : bool :=
  match v with
  | VObject props => has_key (lit "toString") props
  | VArray elems => existsb to_string_throws elems
  | _ => false
  end.

(** The number that the string form of [v] converts to, for a [v] whose
    conversion to a string does not throw.  An array of two or more
    elements joins them with commas and is no numeric literal; the string
    form of a number converts back to that number. *)
Fixpoint number_of_string_form (v : value) : number :=
  match v with
  | VUndefined => NaN
  | VNull => NaN
  | VBool _ => NaN
  | VNumber n => n
  | VString s => StringToNumber s
  | VArray [] => Fin 0
  | VArray [VUndefined] | VArray [VNull] => Fin 0
  | VArray [x] => number_of_string_form x
  | VArray _ => NaN
  | VObject _ => NaN
  end.

(** [ToNumber] *)
Definition ToNumber (v : value) : outcome number :=
  match v with
  | VUndefined => inr NaN
  | VNull => inr (Fin 0)
  | VBool b => inr (Fin (if b then 1 else 0))
  | VNumber n => inr n
  | VString s => inr (StringToNumber s)
  | VArray _ | VObject _ =>
      if to_string_throws v then inl TypeError
      else inr (number_of_string_form v)
  end.

(** The order on numbers other than [NaN]. *)
Definition num_leb (a b : number) : bool :=
  match a, b with
  | NaN, _ | _, NaN => false
  | NegInf, _ => true
  | _, PosInf => true
  | Fin p, Fin q => Qle_bool p q
  | _, _ => false
  end.

Definition is_nan (a : number) : bool :=
  match a with NaN => true | _ => false end.

(** [Math.max(a, b)] and [Math.min(a, b)] on numbers. *)
Definition Math_max (a b : number) : number :=
  if is_nan a || is_nan b then NaN else if num_leb a b then b else a.

Definition Math_min (a b : number) : number :=
  if is_nan a || is_nan b then NaN else if num_leb a b then a else b.

End JS.

(* ================================================================== *)
(** ** [JSON.parse] *)
(* ================================================================== *)

Module JSON.
Import JS.

Inductive token :=
| TLBrace | TRBrace | TLBracket | TRBracket | TColon | TComma
| TScalar (v : value).

Definition hex_digit (c : code_unit) : option N := radix_digit 16 c.

Definition hex4 (a b c d : code_unit) : option code_unit :=
  match hex_digit a, hex_digit b, hex_digit c, hex_digit d with
  | Some x, Some y, Some z, Some w => Some (((x * 16 + y) * 16 + z) * 16 + w)%N
  | _, _, _, _ => None
  end.

Definition push (c : code_unit) (n : nat) (r : option (jsstring * nat)) :
    option (jsstring * nat) :=
  match r with
  | Some (s, k) => Some (c :: s, (n + k)%nat)
  | None => None
  end.

(** The characters of a string literal after its opening quote, up to
    and including the closing quote: the string denoted and the number of
    code units read. *)
Fixpoint lex_string (s : jsstring) : option (jsstring * nat) :=
  match s with
  | [] => None
  | 34%N :: _ => Some ([], 1%nat)
  | 92%N :: e :: rest =>
      match e with
      | 34%N | 92%N | 47%N => push e 2 (lex_string rest)
      | 98%N => push 8%N 2 (lex_string rest)
      | 102%N => push 12%N 2 (lex_string rest)
      | 110%N => push 10%N 2 (lex_string rest)
      | 114%N => push 13%N 2 (lex_string rest)
      | 116%N => push 9%N 2 (lex_string rest)
      | 117%N =>
          match rest with
          | a :: b :: c :: d :: rest' =>
              match hex4 a b c d with
              | Some u => push u 6 (lex_string rest')
              | None => None
              end
          | _ => None
          end
      | _ => None
      end
  | c :: rest => if (c <? 32)%N then None else push c 1 (lex_string rest)
  end.

(** A number literal at the head of [s]: [-]? int frac? exp?, where int
    has no leading zero. *)
Definition lex_number (s : jsstring) : option (number * nat) :=
  let (negative, s1) :=
    match s with 45%N :: r => (true, r) | _ => (false, s) end in
  let (int_digits, s2) := span_digits s1 in
  let (frac_digits, s3) :=
    match s2 with
    | 46%N :: r =>
        match span_digits r with
        | ([], _) => ([], s2)
        | p => p
        end
    | _ => ([], s2)
    end in
  let (e, s4) := exponent_part s3 in
  match int_digits with
  | [] => None
  | 48%N :: _ :: _ => None
  | _ =>
      Some (Fin (decimal_value negative int_digits frac_digits e),
            (List.length s - List.length s4)%nat)
  end.

(** The token at the head of [s] ([None] inside for white space) and the
    number of code units it spans; [None] when no token starts there. *)
Definition lex_token (s : jsstring) : option (option token * nat) :=
  match s with
  | [] => None
  | c :: rest =>
      if ((c =? 32) || (c =? 9) || (c =? 10) || (c =? 13))%N
      then Some (None, 1%nat)
      else if (c =? 123)%N then Some (Some TLBrace, 1%nat)
      else if (c =? 125)%N then Some (Some TRBrace, 1%nat)
      else if (c =? 91)%N then Some (Some TLBracket, 1%nat)
      else if (c =? 93)%N then Some (Some TRBracket, 1%nat)
      else if (c =? 58)%N then Some (Some TColon, 1%nat)
      else if (c =? 44)%N then Some (Some TComma, 1%nat)
      else if (c =? 34)%N then
        match lex_string rest with
        | Some (str, n) => Some (Some (TScalar (VString str)), S n)
        | None => None
        end
      else if startsWith s (lit "true") then Some (Some (TScalar (VBool true)), 4%nat)
      else if startsWith s (lit "false") then Some (Some (TScalar (VBool false)), 5%nat)
      else if startsWith s (lit "null") then Some (Some (TScalar VNull), 4%nat)
      else
        match lex_number s with
        | Some (n, k) => Some (Some (TScalar (VNumber n)), k)
        | None => None
        end
  end.

(** The tokens of [s].  [skip] counts the code units of the current token
    that are still to be passed over. *)
Fixpoint tokenize (skip : nat) (s : jsstring) : option (list token) :=
  match s with
  | [] => Some []
  | _ :: rest =>
      match skip with
      | S k => tokenize k rest
      | O =>
          match lex_token s with
          | None => None
          | Some (tok, n) =>
              match tokenize (pred n) rest, tok with
              | Some toks, Some t => Some (t :: toks)
              | Some toks, None => Some toks
              | None, _ => None
              end
          end
      end
  end.

(** The enclosing array or object under construction. *)
Inductive frame :=
| InArray (elems : list value)
| InObject (props : list (jsstring * value)) (key : jsstring).

(** What the parser expects next. *)
Inductive pstate :=
| ExpectValue (stack : list frame)
| ExpectValueOrEnd (stack : list frame)
| ExpectKeyOrEnd (stack : list frame)
| ExpectKey (props : list (jsstring * value)) (stack : list frame)
| ExpectColon (props : list (jsstring * value)) (key : jsstring) (stack : list frame)
| After (v : value) (stack : list frame).

Definition start_value (t : token) (stack : list frame) : option pstate :=
  match t with
  | TScalar v => Some (After v stack)
  | TLBracket => Some (ExpectValueOrEnd stack)
  | TLBrace => Some (ExpectKeyOrEnd stack)
  | _ => None
  end.

Definition step (st : pstate) (t : token) : option pstate :=
  match st with
  | ExpectValue stack => start_value t stack
  | ExpectValueOrEnd stack =>
      match t with
      | TRBracket => Some (After (VArray []) stack)
      | _ => start_value t (InArray [] :: stack)
      end
  | ExpectKeyOrEnd stack =>
      match t with
      | TRBrace => Some (After (VObject []) stack)
      | TScalar (VString k) => Some (ExpectColon [] k stack)
      | _ => None
      end
  | ExpectKey props stack =>
      match t with
      | TScalar (VString k) => Some (ExpectColon props k stack)
      | _ => None
      end
  | ExpectColon props k stack =>
      match t with
      | TColon => Some (ExpectValue (InObject props k :: stack))
      | _ => None
      end
  | After v (InArray elems :: stack) =>
      match t with
      | TComma => Some (ExpectValue (InArray (elems ++ [v]) :: stack))
      | TRBracket => Some (After (VArray (elems ++ [v])) stack)
      | _ => None
      end
  | After v (InObject props k :: stack) =>
      match t with
      | TComma => Some (ExpectKey (props ++ [(k, v)]) stack)
      | TRBrace => Some (After (VObject (props ++ [(k, v)])) stack)
      | _ => None
      end
  | After _ [] => None
  end.

Fixpoint run (st : pstate) (toks : list token) : option pstate :=
  match toks with
  | [] => Some st
  | t :: rest =>
      match step st t with
      | Some st' => run st' rest
      | None => None
      end
  end.

(** [JSON.parse(text)]: the value, or a [SyntaxError]. *)
Definition parse (text : jsstring) : outcome value :=
  match tokenize 0 text with
  | None => inl SyntaxError
  | Some toks =>
      match run (ExpectValue []) toks with
      | Some (After v []) => inr v
      | _ => inl SyntaxError
      end
  end.

End JSON.

(* ================================================================== *)
(** ** The handler *)
(* ================================================================== *)

Module ClassifyWaste.
Import JS.

(** Texts that contain double quotes are written with apostrophes in
    their place. *)
Definition quoted (s : string) : jsstring :=
  map (fun c => if (c =? 39)%N then 34%N else c) (lit s).

(** *** The outside world *)

Record File := { file_type : jsstring; file_bytes : list N }.

Inductive form_entry :=
| FieldString (s : jsstring)
| FieldFile (f : File).

(** The response of the model endpoint: its status and its body text. *)
Record upstream := { upstream_status : N; upstream_body : jsstring }.

(** [response.ok] *)
Definition ok (r : upstream) : bool :=
  ((200 <=? upstream_status r) && (upstream_status r <=? 299))%N.

(** What one invocation of the handler observes: the request method, the
    environment variable, the outcome of [req.formData()] and the outcome
    of the call to the model endpoint. *)
Record world := {
  req_method : jsstring;
  env_LOVABLE_API_KEY : option jsstring;
  req_formData : outcome (list (jsstring * form_entry));
  fetch_outcome : outcome upstream
}.

(** *** Effects *)

Inductive event :=
| ConsoleLog (label : jsstring)
| ConsoleError (label : jsstring)
| Fetch (bearer : jsstring) (image : File).

(** Computations that log events and may throw. *)
Definition M (A : Type) := (list event * outcome A)%type.

Definition ret {A} (a : A) : M A := ([], inr a).
Definition throw {A} (e : exception) : M A := ([], inl e).
Definition emit (ev : event) : M unit := ([ev], inr tt).
Definition lift {A} (r : outcome A) : M A := ([], r).

Definition bind {A B} (m : M A) (k : A -> M B) : M B :=
  match m with
  | (t, inl e) => (t, inl e)
  | (t, inr a) => let (t', r) := k a in (t ++ t', r)
  end.

Notation "x <- m ;; k" := (bind m (fun x => k))
  (at level 61, m at next level, right associativity).
Notation "m ;;; k" := (bind m (fun _ => k))
  (at level 61, right associativity).

(** *** Responses *)

(** [error.message]: the text given to [new Error], or the engine's own
    text for an error the runtime raised. *)
Inductive message :=
| Message (text : jsstring)
| EngineMessage (e : exception).

(** The response body, as the object handed to [JSON.stringify]. *)
Inductive body :=
| NoBody
| ErrorBody (error : message) (details : option jsstring)
| ResultBody (category : value) (confidence : number) (reasoning : value).

Record Response := {
  status : N;
  headers : list (jsstring * jsstring);
  payload : body
}.

Definition corsHeaders : list (jsstring * jsstring) :=
  [ (lit "Access-Control-Allow-Origin", lit "*");
    (lit "Access-Control-Allow-Headers",
     lit "authorization, x-client-info, apikey, content-type") ].

Definition jsonHeaders : list (jsstring * jsstring) :=
  corsHeaders ++ [ (lit "Content-Type", lit "application/json") ].

Definition error_message (e : exception) : message :=
  match e with
  | Error m => Message m
  | _ => EngineMessage e
  end.

(** The decimal form of a status code, for the template literal. *)
Definition decimal (n : N) : jsstring :=
  lit (NilZero.string_of_uint (N.to_uint n)).

(** *** The parse block *)

(** The longest prefix of [s] that ends with a closing brace. *)
Fixpoint upto_last_close (s : jsstring) : option jsstring :=
  match s with
  | [] => None
  | c :: rest =>
      match upto_last_close rest with
      | Some m => Some (c :: m)
      | None => if (c =? 125)%N then Some [c] else None
      end
  end.

(** [s.match(/\{[\s\S]*\}/)]: element 0 of the match, which runs from the
    first opening brace to the last closing brace after it. *)
Fixpoint match_braces (s : jsstring) : option jsstring :=
  match s with
  | [] => None
  | c :: rest =>
      if (c =? 123)%N then
        match upto_last_close rest with
        | Some m => Some (c :: m)
        | None => None
        end
      else match_braces rest
  end.

Definition categories : list jsstring :=
  [lit "Plastic"; lit "Paper"; lit "Organic"; lit "Metal"; lit "Glass"].

Definition foundCategory (aiResponse : jsstring) : value :=
  find_value
    (fun cat => includes (toLowerCase aiResponse) (toLowerCase cat))
    categories.

(** The object built in the [catch] branch. *)
Definition fallback (aiResponse : jsstring) : value :=
  VObject
    [ (lit "category", or_else (foundCategory aiResponse) (VString (lit "Plastic")));
      (lit "confidence", VNumber (Fin (75 # 100)));
      (lit "reasoning", VString (substring0 aiResponse 200)) ].

(** The [try] block (lines 105 to 112): the text handed to [JSON.parse] is
    the brace match when there is one, the whole response otherwise. *)
Definition try_parse (aiResponse : jsstring) : outcome value :=
  match match_braces aiResponse with
  | Some jsonMatch => JSON.parse jsonMatch
  | None => JSON.parse aiResponse
  end.

(** [try { ... } catch (parseError) { ... }] (lines 104 to 126).  A
    response that is not a string has no [match] method; the [TypeError]
    is caught, and the [catch] branch throws again at
    [aiResponse.toLowerCase]. *)
Definition parse_block (aiResponse : value) : M value :=
  match aiResponse with
  | VString text =>
      match try_parse text with
      | inr result => ret result
      | inl parseError =>
          emit (ConsoleError (lit "Failed to parse AI response:")) ;;;
          ret (fallback text)
      end
  | _ =>
      emit (ConsoleError (lit "Failed to parse AI response:")) ;;;
      throw TypeError
  end.

(** *** Normalisation *)

Definition validCategories : list jsstring :=
  [lit "Plastic"; lit "Paper"; lit "Organic"; lit "Metal"; lit "Glass"].

(** [c?.toLowerCase()] *)
Definition toLowerCase_opt (c : value) : outcome value :=
  match c with
  | VUndefined | VNull => inr VUndefined
  | VString s => inr (VString (toLowerCase s))
  | _ => inl TypeError
  end.

(** [a === b] for a string [a] *)
Definition strict_eq_string (a : jsstring) (b : value) : bool :=
  match b with
  | VString s => str_eqb a s
  | _ => false
  end.

Definition normalizedCategory (result : value) : outcome value :=
  match get result (lit "category") with
  | inl e => inl e
  | inr category =>
      match toLowerCase_opt category with
      | inl e => inl e
      | inr lowered =>
          inr (or_else
                 (find_value
                    (fun cat => strict_eq_string (toLowerCase cat) lowered)
                    validCategories)
                 category)
      end
  end.

(** [Math.min(Math.max(result.confidence || 0.8, 0), 1)] *)
Definition confidence_of (result : value) : outcome number :=
  match get result (lit "confidence") with
  | inl e => inl e
  | inr c =>
      match ToNumber (or_else c (VNumber (Fin (8 # 10)))) with
      | inl e => inl e
      | inr n => inr (Math_min (Math_max n (Fin 0)) (Fin 1))
      end
  end.

(** [result.reasoning || 'Classification based on visual analysis'] *)
Definition reasoning_of (result : value) : outcome value :=
  match get result (lit "reasoning") with
  | inl e => inl e
  | inr r =>
      inr (or_else r (VString (lit "Classification based on visual analysis")))
  end.

(** Lines 128 to 143: the success response built from [result]. *)
Definition respond (result : value) : M Response :=
  category <- lift (normalizedCategory result) ;;
  confidence <- lift (confidence_of result) ;;
  reasoning <- lift (reasoning_of result) ;;
  ret {| status := 200;
         headers := jsonHeaders;
         payload := ResultBody category confidence reasoning |}.

(** The Result Normalizer: the parse block followed by normalisation. *)
Definition normalizer (aiResponse : value) : M Response :=
  result <- parse_block aiResponse ;;
  respond result.

(** *** The request handler *)

(** [formData.get(name)]: the first entry of that name, [null] if none. *)
Fixpoint form_get (name : jsstring) (entries : list (jsstring * form_entry)) :
    option form_entry :=
  match entries with
  | [] => None
  | (k, v) :: rest => if str_eqb name k then Some v else form_get name rest
  end.

(** [data.choices?.[0]?.message?.content] *)
Definition content_of (data : value) : outcome value :=
  match get data (lit "choices") with
  | inl e => inl e
  | inr choices =>
      inr (get_opt (get_opt (index0_opt choices) (lit "message")) (lit "content"))
  end.

Definition json_response (code : N) (b : body) : Response :=
  {| status := code; headers := jsonHeaders; payload := b |}.

(** The branch taken when [response.ok] is false (lines 74 to 92). *)
Definition upstream_failure (response : upstream) : M Response :=
  emit (ConsoleError (lit "AI Gateway error:")) ;;;
  if (upstream_status response =? 429)%N then
    ret (json_response 429
           (ErrorBody (Message (lit "Rate limit exceeded. Please try again later.")) None))
  else if (upstream_status response =? 402)%N then
    ret (json_response 402
           (ErrorBody
              (Message (lit "AI credits exhausted. Please add credits to your workspace."))
              None))
  else
    throw (Error (lit "AI Gateway error: " ++ decimal (upstream_status response))).

(** The body of the outer [try] (lines 15 to 143). *)
Definition classify (w : world) : M Response :=
  match env_LOVABLE_API_KEY w with
  | None | Some [] => throw (Error (lit "LOVABLE_API_KEY not configured"))
  | Some ((_ :: _) as LOVABLE_API_KEY) =>
      formData <- lift (req_formData w) ;;
      match form_get (lit "image") formData with
      | None | Some (FieldString []) =>
          ret (json_response 400 (ErrorBody (Message (lit "No image provided")) None))
      | Some (FieldString (_ :: _)) =>
          (* a non-empty string has no [arrayBuffer] method *)
          throw TypeError
      | Some (FieldFile imageFile) =>
          emit (ConsoleLog (lit "Calling Lovable AI for waste classification...")) ;;;
          emit (Fetch LOVABLE_API_KEY imageFile) ;;;
          response <- lift (fetch_outcome w) ;;
          if negb (ok response) then upstream_failure response
          else
            data <- lift (JSON.parse (upstream_body response)) ;;
            aiResponse <- lift (content_of data) ;;
            emit (ConsoleLog (lit "AI Response:")) ;;;
            if negb (truthy aiResponse) then throw (Error (lit "No response from AI"))
            else normalizer aiResponse
      end
  end.

Definition preflight : Response :=
  {| status := 200; headers := corsHeaders; payload := NoBody |}.

(** The outer [catch] (lines 145 to 157). *)
Definition failure (error : exception) : Response :=
  json_response 500
    (ErrorBody (error_message error)
       (Some (lit "Failed to classify waste. Please try again."))).

(** The callback given to [serve] (lines 8 to 158): the events performed
    and the response. *)
Definition handler (w : world) : list event * Response :=
  if str_eqb (req_method w) (lit "OPTIONS") then ([], preflight)
  else
    match classify w with
    | (t, inr r) => (t, r)
    | (t, inl error) =>
        (t ++ [ConsoleError (lit "Error in classify-waste function:")],
         failure error)
    end.

(** The calls to the model endpoint in a trace. *)
Definition fetches (t : list event) : list event :=
  filter (fun ev => match ev with Fetch _ _ => true | _ => false end) t.

End ClassifyWaste.

(* ================================================================== *)
(** ** The result card *)
(* ================================================================== *)

Module ResultCard.
Import JS.

Inductive icon := Recycle | FileText | Leaf | Wrench | Wine.

Record config := {
  config_icon : icon;
  color : jsstring;
  bgColor : jsstring;
  borderColor : jsstring
}.

Definition categoryConfig : list (jsstring * config) :=
  [ (lit "Plastic",
     {| config_icon := Recycle; color := lit "waste-plastic";
        bgColor := lit "bg-waste-plastic/10"; borderColor := lit "border-waste-plastic" |});
    (lit "Paper",
     {| config_icon := FileText; color := lit "waste-paper";
        bgColor := lit "bg-waste-paper/10"; borderColor := lit "border-waste-paper" |});
    (lit "Organic",
     {| config_icon := Leaf; color := lit "waste-organic";
        bgColor := lit "bg-waste-organic/10"; borderColor := lit "border-waste-organic" |});
    (lit "Metal",
     {| config_icon := Wrench; color := lit "waste-metal";
        bgColor := lit "bg-waste-metal/10"; borderColor := lit "border-waste-metal" |});
    (lit "Glass",
     {| config_icon := Wine; color := lit "waste-glass";
        bgColor := lit "bg-waste-glass/10"; borderColor := lit "border-waste-glass" |}) ].

(** The property names that an object literal inherits from
    [Object.prototype]; each holds a truthy value (a function, or the
    prototype object for [__proto__]). *)
Definition Object_prototype : list jsstring :=
  [ lit "constructor"; lit "__defineGetter__"; lit "__defineSetter__";
    lit "hasOwnProperty"; lit "__lookupGetter__"; lit "__lookupSetter__";
    lit "isPrototypeOf"; lit "propertyIsEnumerable"; lit "toString";
    lit "valueOf"; lit "__proto__"; lit "toLocaleString" ].

(** What [table[key]] finds in an object literal. *)
Inductive property (A : Type) :=
| Own (a : A)
| Inherited
| Missing.
Arguments Own {A} a.
Arguments Inherited {A}.
Arguments Missing {A}.

Fixpoint own {A : Type} (table : list (jsstring * A)) (key : jsstring) : option A :=
  match table with
  | [] => None
  | (k, a) :: rest => if str_eqb key k then Some a else own rest key
  end.

(** [table[key]] *)
Definition member {A : Type} (table : list (jsstring * A)) (key : jsstring) :
    property A :=
  match own table key with
  | Some a => Own a
  | None => if existsb (str_eqb key) Object_prototype then Inherited else Missing
  end.

(** [categoryConfig[result.category] || categoryConfig.Plastic] (line 46).
    An own entry and an inherited value are both truthy; only a missing
    property gives the default. *)
Definition config_for (category : jsstring) : property config :=
  match member categoryConfig category with
  | Missing => member categoryConfig (lit "Plastic")
  | found => found
  end.

Definition tips : list (jsstring * jsstring) :=
  [ (lit "Plastic",
     lit "Rinse clean and place in the plastic recycling bin. Check for recycling symbols.");
    (lit "Paper",
     lit "Keep dry and place in paper recycling. Remove any plastic or metal attachments.");
    (lit "Organic",
     lit "Perfect for composting! Helps create nutrient-rich soil for gardens.");
    (lit "Metal",
     lit "Rinse cans and place in metal recycling. Can be recycled indefinitely!");
    (lit "Glass",
     lit "Rinse and recycle. Glass can be recycled endlessly without quality loss.") ].

Definition default_tip : jsstring :=
  lit "Please dispose responsibly according to local guidelines.".

(** [getDisposalTip] (lines 113 to 122): [tips[category] || default].  An
    own tip that is the empty string would be falsy; an inherited value is
    returned as it is. *)
Definition getDisposalTip (category : jsstring) : property jsstring :=
  match member tips category with
  | Own tip => if truthy (VString tip) then Own tip else Own default_tip
  | Inherited => Inherited
  | Missing => Own default_tip
  end.

End ResultCard.

(* ================================================================== *)
(** ** The upload component *)
(* ================================================================== *)

Module WasteClassifier.
Import JS ClassifyWaste.

(** The state of the component (lines 16 to 19). *)
Record state := {
  image : option jsstring;
  isLoading : bool;
  result : option value;
  isDragging : bool
}.

Definition initial : state :=
  {| image := None; isLoading := false; result := None; isDragging := false |}.

(** What the component does to the outside. *)
Inductive effect :=
| ToastError (title : jsstring) (description : option jsstring)
| ToastErrorValue (message : value)
| ToastSuccess (title : jsstring)
| LogError (label : jsstring)
| Invoke (function_name : jsstring) (body : list (jsstring * form_entry))
| ReadAsDataURL (file : File).

(** What [supabase.functions.invoke] resolves to. *)
Record reply := { data : value; error : option exception }.

Definition size (file : File) : N := N.of_nat (List.length (file_bytes file)).

(** The title of the success toast: U+1F389 as its two code units, then
    the text. *)
Definition success_title : jsstring :=
  [55356; 57225; 32]%N ++ lit "Image classified successfully!".

(** Whether building the description of the success toast throws: the
    template converts [data.category] to a string and [data.confidence]
    to a number. *)
Definition description_throws (d : value) : bool :=
  to_string_throws (get_opt d (lit "category")) ||
  match ToNumber (get_opt d (lit "confidence")) with
  | inl _ => true
  | inr _ => false
  end.

(** The [try] block of [classifyImage] after the two first setters (lines
    28 to 45): the result to set, if any, the effects, and the error
    thrown, if any. *)
Definition classify_try (file : File) (invoked : outcome reply) :
    option value * list effect * option exception :=
  let call := Invoke (lit "classify-waste") [(lit "image", FieldFile file)] in
  match invoked with
  | inl e => (None, [call], Some e)
  | inr {| data := d; error := Some e |} => (None, [call], Some e)
  | inr {| data := d; error := None |} =>
      match get d (lit "error") with
      | inl e => (None, [call], Some e)
      | inr message =>
          if truthy message then (None, [call; ToastErrorValue message], None)
          else if description_throws d then (Some d, [call], Some TypeError)
          else
            (Some d, [call; ToastSuccess success_title], None)
      end
  end.

(** [classifyImage] (lines 23 to 54). *)
Definition classifyImage (st : state) (file : File) (invoked : outcome reply) :
    state * list effect :=
  let '(set, effects, thrown) := classify_try file invoked in
  let caught :=
    match thrown with
    | Some _ =>
        [ LogError (lit "Classification error:");
          ToastError (lit "Failed to classify image")
            (Some (lit "Please try again or use a different image.")) ]
    | None => []
    end in
  ({| image := image st; isLoading := false; result := set;
      isDragging := isDragging st |},
   effects ++ caught).

(** [handleFile] (lines 56 to 81). *)
Definition handleFile (st : state) (file : option File) (invoked : outcome reply) :
    state * list effect :=
  match file with
  | None =>
      (st, [ToastError (lit "Please select a valid image file")
              (Some (lit "Supported formats: JPG, PNG, WEBP"))])
  | Some f =>
      if negb (startsWith (file_type f) (lit "image/")) then
        (st, [ToastError (lit "Please select a valid image file")
                (Some (lit "Supported formats: JPG, PNG, WEBP"))])
      else if (10 * 1024 * 1024 <? size f)%N then
        (st, [ToastError (lit "Image too large")
                (Some (lit "Please select an image smaller than 10MB"))])
      else
        let (st', effects) := classifyImage st f invoked in
        (st', ReadAsDataURL f :: effects)
  end.

(** [reader.onload] (lines 74 to 76). *)
Definition reader_onload (st : state) (dataUrl : jsstring) : state :=
  {| image := Some dataUrl; isLoading := isLoading st; result := result st;
     isDragging := isDragging st |}.

(** [handleReset] (lines 100 to 106). *)
Definition handleReset (st : state) : state :=
  {| image := None; isLoading := false; result := None;
     isDragging := isDragging st |}.

(** [handleDrop] (lines 83 to 89), given the first dropped file. *)
Definition handleDrop (st : state) (file : option File) (invoked : outcome reply) :
    state * list effect :=
  let dropped :=
    {| image := image st; isLoading := isLoading st; result := result st;
       isDragging := false |} in
  match file with
  | Some f => handleFile dropped (Some f) invoked
  | None => (dropped, [])
  end.

End WasteClassifier.

(* ================================================================== *)
(** ** The shape of JSON texts *)
(* ================================================================== *)

Module Grammar.
Import JS JSON.

(** The four white-space units that [JSON.tokenize] skips between
    tokens: space, tab, line feed and carriage return. *)
Definition json_space (c : code_unit) : bool :=
  ((c =? 32) || (c =? 9) || (c =? 10) || (c =? 13))%N.

(** A text made of such units only. *)
Definition spaces (ws : jsstring) : Prop := Forall (fun c => json_space c = true) ws.

(** The three stages of [JSON.lex_number] after the integer digits and
    of [JS.exponent_part], named so that each can be stated on its own:
    the sign of an exponent, the fraction, and the assembly of the
    number from the digits read. *)
Definition exp_sign (rest : jsstring) : bool * jsstring :=
  match rest with
  | 43%N :: r => (false, r)
  | 45%N :: r => (true, r)
  | _ => (false, rest)
  end.

Definition frac_part (s2 : jsstring) : jsstring * jsstring :=
  match s2 with
  | 46%N :: r =>
      match span_digits r with
      | ([], _) => ([], s2)
      | p => p
      end
  | _ => ([], s2)
  end.

Definition number_body (negative : bool) (s s1 : jsstring) : option (number * nat) :=
  let (int_digits, s2) := span_digits s1 in
  let (frac_digits, s3) := frac_part s2 in
  let (e, s4) := exponent_part s3 in
  match int_digits with
  | [] => None
  | 48%N :: _ :: _ => None
  | _ =>
      Some (Fin (decimal_value negative int_digits frac_digits e),
            (List.length s - List.length s4)%nat)
  end.

(** A token that the lexer produces: a punctuation mark, or a scalar that
    is a string, a number, a boolean or [null]. *)
Definition token_ok (t : token) : Prop :=
  match t with
  | TScalar (VObject _) | TScalar (VArray _) | TScalar VUndefined => False
  | _ => True
  end.

(** The parser's stack has an array as its outermost open container. *)
Fixpoint bottom_array (stack : list frame) : bool :=
  match stack with
  | [] => false
  | f :: rest =>
      match rest with
      | [] => match f with InArray _ => true | InObject _ _ => false end
      | _ :: _ => bottom_array rest
      end
  end.

(** The states the parser can be in after a text that opened with [[]:
    either inside that array, or done with an array as the value. *)
Definition arrayish (st : pstate) : Prop :=
  match st with
  | ExpectValue s | ExpectKeyOrEnd s | ExpectKey _ s | ExpectColon _ _ s =>
      bottom_array s = true
  | ExpectValueOrEnd s => s = [] \/ bottom_array s = true
  | After v s =>
      match s with
      | [] => exists l, v = VArray l
      | _ :: _ => bottom_array s = true
      end
  end.

End Grammar.

(* ================================================================== *)
(** ** Vocabulary of the statements *)
(* ================================================================== *)

Module Props.
Import JS ClassifyWaste.

(** [p] occurs in [s], up to case. *)
Definition occurs_ci (p s : jsstring) : Prop :=
  exists pre post, toLowerCase s = pre ++ toLowerCase p ++ post.

(** [cat] is the first label, in the order of [categories], that occurs in
    [text] up to case. *)
Definition first_occurring (text cat : jsstring) : Prop :=
  exists before after,
    categories = before ++ cat :: after /\
    occurs_ci cat text /\
    forall c, In c before -> ~ occurs_ci c text.

(** [m] runs from the first opening brace of [text] to the last closing
    brace after it. *)
Definition brace_span (text m : jsstring) : Prop :=
  exists pre inner post,
    text = pre ++ 123%N :: inner ++ 125%N :: post /\
    ~ In 123%N pre /\ ~ In 125%N post /\
    m = 123%N :: inner ++ [125%N].

(** No opening brace of [text] is followed by a closing brace. *)
Definition no_brace_span (text : jsstring) : Prop :=
  ~ exists pre inner post, text = pre ++ 123%N :: inner ++ 125%N :: post.

(** A number of the closed interval from 0 to 1. *)
Definition in_unit_interval (n : number) : Prop :=
  match n with
  | Fin q => 0 <= q /\ q <= 1
  | _ => False
  end.

(** [w] is a classification request for which the model endpoint answered
    with success and the completion [aiResponse]. *)
Record completion (w : world) (aiResponse : value) : Prop := {
  not_preflight : req_method w <> lit "OPTIONS";
  key_configured : exists k, env_LOVABLE_API_KEY w = Some k /\ k <> [];
  image_attached :
    exists formData imageFile,
      req_formData w = inr formData /\
      form_get (lit "image") formData = Some (FieldFile imageFile);
  model_answered :
    exists r data,
      fetch_outcome w = inr r /\ ok r = true /\
      JSON.parse (upstream_body r) = inr data /\
      content_of data = inr aiResponse
}.

(** A [POST] request with an image attached, a configured key, and a
    model endpoint that answers 200 with [body]. *)
Definition answered (body : jsstring) : world :=
  {| req_method := lit "POST";
     env_LOVABLE_API_KEY := Some (lit "secret");
     req_formData :=
       inr [(lit "image",
             FieldFile {| file_type := lit "image/png"; file_bytes := [137; 80; 78; 71]%N |})];
     fetch_outcome := inr {| upstream_status := 200; upstream_body := body |} |}.

(** The outcome of the parse block, given what [JSON.parse] made of the
    text that was handed to it. *)
Definition recovered (text : jsstring) (parsed : outcome value) : M value :=
  match parsed with
  | inr result => ([], inr result)
  | inl _ =>
      ([ConsoleError (lit "Failed to parse AI response:")], inr (fallback text))
  end.

(** The extraction tiers in the order the specification words them: the
    whole text is parsed first, the brace scan is tried only if that
    fails, and the keyword fallback is used only if both fail.  [accepts]
    says which parsed values count as the structured object that the
    specification asks the parse to yield. *)
Definition try_parse_spec_order (accepts : value -> bool) (text : jsstring) :
    outcome value :=
  let accepted (r : outcome value) : outcome value :=
    match r with
    | inr v => if accepts v then inr v else inl SyntaxError
    | inl e => inl e
    end in
  match accepted (JSON.parse text) with
  | inr v => inr v
  | inl _ =>
      match match_braces text with
      | Some m => accepted (JSON.parse m)
      | None => inl SyntaxError
      end
  end.

Definition normalizer_spec_order (accepts : value -> bool) (text : jsstring) :
    M Response :=
  result <- match try_parse_spec_order accepts text with
            | inr v => ret v
            | inl _ =>
                emit (ConsoleError (lit "Failed to parse AI response:")) ;;;
                ret (fallback text)
            end ;;
  respond result.

(** Two completions that are JSON string literals denoting the same
    string: the first writes its braces plainly, the second as escapes. *)
Definition plain_braces : jsstring := quoted "'{glass}'".
Definition escaped_braces : jsstring := quoted "'\u007bglass\u007d'".

(** The events that precede the normaliser on a successful model call. *)
Definition model_call (key : jsstring) (imageFile : File) : list event :=
  [ ConsoleLog (lit "Calling Lovable AI for waste classification...");
    Fetch key imageFile;
    ConsoleLog (lit "AI Response:") ].

(** The reply of the specification's keyword example, and the body of a
    200 answer that carries it as its completion. *)
Definition metal_text : jsstring :=
  lit "I think this is made of METAL and recyclable".

Definition metal_answer : jsstring :=
  quoted "{'choices':[{'message':{'content':'I think this is made of METAL and recyclable'}}]}".

(** A 200 answer whose completion reports the confidence as a word:
    [{"category":"Glass","confidence":"high","reasoning":"clear bottle"}]. *)
Definition worded_confidence_answer : jsstring :=
  quoted "{'choices':[{'message':{'content':'{\'category\':\'Glass\',\'confidence\':\'high\',\'reasoning\':\'clear bottle\'}'}}]}".

(** A 200 answer whose completion reports the confidence 0:
    [{"category":"Glass","confidence":0,"reasoning":"clear bottle"}]. *)
Definition zero_confidence_answer : jsstring :=
  quoted "{'choices':[{'message':{'content':'{\'category\':\'Glass\',\'confidence\':0,\'reasoning\':\'clear bottle\'}'}}]}".

(** A 200 answer whose completion is the empty string. *)
Definition empty_answer : jsstring :=
  quoted "{'choices':[{'message':{'content':''}}]}".

(** A 200 answer whose completion is the four characters [null]. *)
Definition null_answer : jsstring :=
  quoted "{'choices':[{'message':{'content':'null'}}]}".

(** A completion that reports the category as a number. *)
Definition numbered_category : jsstring :=
  quoted "{'category':5,'confidence':0.9,'reasoning':'clear bottle'}".

(** A request that finds no key in the environment. *)
Definition keyless (method : jsstring) : world :=
  {| req_method := method;
     env_LOVABLE_API_KEY := None;
     req_formData := inr [];
     fetch_outcome := inl NetworkError |}.

(** A request with an image and a key, answered by the model endpoint
    with the status [code]. *)
Definition refused (code : N) : world :=
  {| req_method := lit "POST";
     env_LOVABLE_API_KEY := Some (lit "secret");
     req_formData :=
       inr [(lit "image",
             FieldFile {| file_type := lit "image/png"; file_bytes := [137; 80; 78; 71]%N |})];
     fetch_outcome := inr {| upstream_status := code; upstream_body := lit "busy" |} |}.

(** A request with a key and a form that has a [note] field only. *)
Definition imageless : world :=
  {| req_method := lit "POST";
     env_LOVABLE_API_KEY := Some (lit "secret");
     req_formData := inr [(lit "note", FieldString (lit "hello"))];
     fetch_outcome := inl NetworkError |}.

(** A reported confidence that is a number, a boolean, [null] or
    missing. *)
Definition plain_confidence (c : value) : Prop :=
  match c with
  | VString _ | VArray _ | VObject _ => False
  | _ => True
  end.

(** A string, [null] or [undefined]. *)
Definition string_or_nullish (v : value) : Prop :=
  match v with
  | VString _ | VNull | VUndefined => True
  | _ => False
  end.

(** The toasts among the effects of the upload component, and its calls
    of the edge function. *)
Definition toasts (effects : list WasteClassifier.effect) :
    list WasteClassifier.effect :=
  filter (fun e => match e with
                   | WasteClassifier.ToastError _ _
                   | WasteClassifier.ToastErrorValue _
                   | WasteClassifier.ToastSuccess _ => true
                   | _ => false
                   end) effects.

Definition invocations (effects : list WasteClassifier.effect) :
    list WasteClassifier.effect :=
  filter (fun e => match e with
                   | WasteClassifier.Invoke _ _ => true
                   | _ => false
                   end) effects.

(** A file that the upload component lets through: its type begins with
    [image/] and it has at most 10 MiB. *)
Definition accepted (file : File) : Prop :=
  (exists rest, file_type file = lit "image/" ++ rest) /\
  (WasteClassifier.size file <= 10485760)%N.

(** A small PNG, and the same bytes declared as a PDF. *)
Definition png : File :=
  {| file_type := lit "image/png"; file_bytes := [137; 80; 78; 71]%N |}.
Definition pdf : File :=
  {| file_type := lit "application/pdf"; file_bytes := [37; 80; 68; 70]%N |}.

(** The line the outer [catch] writes to the error console. *)
Definition outer_catch_log : event :=
  ConsoleError (lit "Error in classify-waste function:").

(** A completion that wraps its JSON object in prose, as in
    [Sure! Here is my answer: {...} Hope this helps.] *)
Definition preamble : jsstring := lit "Sure! Here is my answer: ".
Definition glass_object : jsstring :=
  quoted "{'category':'glass','confidence':0.9,'reasoning':'clear bottle'}".
Definition afterword : jsstring := lit " Hope this helps.".
Definition glass_props : list (jsstring * value) :=
  [ (lit "category", VString (lit "glass"));
    (lit "confidence", VNumber (Fin (9 # 10)));
    (lit "reasoning", VString (lit "clear bottle")) ].

End Props.

(* ================================================================== *)
(** ** Strings *)
(* ================================================================== *)

Import JS ClassifyWaste Props.

Lemma str_eqb_eq (a b : jsstring) : str_eqb a b = true <-> a = b.
Proof.
  unfold str_eqb. destruct (list_eq_dec N.eq_dec a b); split; congruence.
Qed.

Lemma str_eqb_neq (a b : jsstring) : str_eqb a b = false <-> a <> b.
Proof.
  unfold str_eqb. destruct (list_eq_dec N.eq_dec a b); split; congruence.
Qed.

Lemma startsWith_prefix (p s : jsstring) :
  startsWith s p = true <-> exists post, s = p ++ post.
Proof.
  revert s. induction p as [|a p IH]; intros s; simpl.
  - split; [intros _; now exists s | reflexivity].
  - destruct s as [|b s].
    + split; [discriminate | intros [post H]; discriminate].
    + rewrite andb_true_iff, N.eqb_eq, IH. split.
      * intros [-> [post ->]]. now exists post.
      * intros [post H]. injection H as -> ->. split; [reflexivity | now exists post].
Qed.

Lemma includes_infix (s p : jsstring) :
  includes s p = true <-> exists pre post, s = pre ++ p ++ post.
Proof.
  induction s as [|c s IH]; simpl; rewrite orb_true_iff, startsWith_prefix.
  - split.
    + intros [[post H] | H]; [|discriminate]. now exists [], post.
    + intros [pre [post H]]. left. destruct pre; [|discriminate].
      now exists post.
  - rewrite IH. split.
    + intros [[post H] | [pre [post H]]].
      * now exists [], post.
      * exists (c :: pre), post. simpl. now rewrite H.
    + intros [[|c' pre] [post H]].
      * left. now exists post.
      * right. injection H as _ H. now exists pre, post.
Qed.

Lemma find_first {A} (p : A -> bool) (l : list A) (x : A) :
  find p l = Some x ->
  exists before after,
    l = before ++ x :: after /\ p x = true /\
    forall y, In y before -> p y = false.
Proof.
  induction l as [|a l IH]; simpl; [discriminate|].
  destruct (p a) eqn:Ha.
  - intros [= ->]. exists [], l. repeat split; [assumption | intros y []].
  - intros H. destruct (IH H) as (before & after & -> & Hx & Hb).
    exists (a :: before), after. repeat split; [assumption|].
    intros y [<- | Hy]; auto.
Qed.

(* ================================================================== *)
(** ** The closed category set *)
(* ================================================================== *)

(** Case analysis over the five labels. *)
Ltac each_label H :=
  unfold validCategories, categories in H; simpl in H;
  repeat (destruct H as [<- | H]); [ .. | contradiction ].

Lemma label_truthy (cat : jsstring) :
  In cat validCategories -> truthy (VString cat) = true.
Proof. intros H. each_label H; reflexivity. Qed.

Lemma lower_labels_distinct (c1 c2 : jsstring) :
  In c1 validCategories -> In c2 validCategories ->
  toLowerCase c1 = toLowerCase c2 -> c1 = c2.
Proof.
  intros H1 H2 E.
  each_label H1; each_label H2;
    solve [ reflexivity | vm_compute in E; discriminate E ].
Qed.

(** The prompt's list and the normaliser's list are the same list. *)
Lemma categories_valid : categories = validCategories.
Proof. reflexivity. Qed.

(** A label normalises to itself. *)
Lemma normalizedCategory_label (result : value) (cat : jsstring) :
  In cat validCategories ->
  get result (lit "category") = inr (VString cat) ->
  normalizedCategory result = inr (VString cat).
Proof.
  intros H G. unfold normalizedCategory. rewrite G.
  each_label H; reflexivity.
Qed.

Lemma respond_category (result : value) (c : value) :
  normalizedCategory result = inr c ->
  forall t r, respond result = (t, inr r) ->
  exists confidence reasoning, payload r = ResultBody c confidence reasoning.
Proof.
  intros N t r. unfold respond. rewrite N.
  destruct (confidence_of result) as [e|conf]; [discriminate|].
  destruct (reasoning_of result) as [e|reason]; [discriminate|].
  simpl. intros [= _ <-]. now exists conf, reason.
Qed.

(** C2.  When [result.category] is a string [s], the normalised category
    is the label of the closed set that equals [s] up to case (there is at
    most one), written as the set writes it, and it is [s] itself,
    unchanged, when no label equals it up to case; that value is the
    category of the response built from [result]. *)
Theorem C2_category_normalisation (result : value) (s : jsstring) :
  get result (lit "category") = inr (VString s) ->
  exists c,
    normalizedCategory result = inr (VString c) /\
    ( (In c validCategories /\ toLowerCase c = toLowerCase s /\
       forall c', In c' validCategories ->
                  toLowerCase c' = toLowerCase s -> c' = c)
      \/
      (c = s /\
       forall cat, In cat validCategories -> toLowerCase cat <> toLowerCase s) )
    /\
    forall t r, respond result = (t, inr r) ->
      exists confidence reasoning,
        payload r = ResultBody (VString c) confidence reasoning.
Proof.
  intros G.
  assert (N : exists c,
    normalizedCategory result = inr (VString c) /\
    ( (In c validCategories /\ toLowerCase c = toLowerCase s)
      \/ (c = s /\ forall cat, In cat validCategories ->
                               toLowerCase cat <> toLowerCase s) )).
  { unfold normalizedCategory. rewrite G. simpl. unfold find_value.
    destruct (find _ validCategories) as [cat|] eqn:F.
    - apply find_some in F as [Hin Heq]. simpl in Heq.
      apply str_eqb_eq in Heq.
      exists cat. unfold or_else. rewrite (label_truthy Hin). auto.
    - exists s. split; [reflexivity|]. right. split; [reflexivity|].
      intros cat Hin Heq.
      pose proof (find_none _ _ F cat Hin) as Hn. simpl in Hn.
      apply str_eqb_neq in Hn. contradiction. }
  destruct N as (c & Hc & Hcase). exists c. split; [exact Hc|]. split.
  - destruct Hcase as [[Hin Heq] | Hpass]; [left | right; exact Hpass].
    repeat split; try assumption.
    intros c' Hin' Heq'. apply lower_labels_distinct; congruence.
  - apply respond_category. exact Hc.
Qed.

(** C2 at the category [pLaStIc]. *)
Lemma C2_category_normalisation_witness :
  get (VObject [(lit "category", VString (lit "pLaStIc"))]) (lit "category")
    = inr (VString (lit "pLaStIc"))
  /\ exists c,
       normalizedCategory (VObject [(lit "category", VString (lit "pLaStIc"))])
         = inr (VString c)
       /\ ( (In c validCategories /\ toLowerCase c = toLowerCase (lit "pLaStIc") /\
             forall c', In c' validCategories ->
                        toLowerCase c' = toLowerCase (lit "pLaStIc") -> c' = c)
            \/
            (c = lit "pLaStIc" /\
             forall cat, In cat validCategories ->
                         toLowerCase cat <> toLowerCase (lit "pLaStIc")) )
       /\ forall t r,
            respond (VObject [(lit "category", VString (lit "pLaStIc"))]) = (t, inr r) ->
            exists confidence reasoning,
              payload r = ResultBody (VString c) confidence reasoning.
Proof.
  split; [reflexivity|].
  apply (C2_category_normalisation
           (VObject [(lit "category", VString (lit "pLaStIc"))]) (s := lit "pLaStIc")).
  reflexivity.
Defined.

(* ================================================================== *)
(** ** The parse block *)
(* ================================================================== *)

Lemma upto_last_close_none (s : jsstring) :
  upto_last_close s = None -> ~ In 125%N s.
Proof.
  induction s as [|c s IH]; simpl; [intros _ []|].
  destruct (upto_last_close s); [discriminate|].
  destruct (c =? 125)%N eqn:E; [discriminate|].
  intros _ [H | H].
  - subst c. now rewrite N.eqb_refl in E.
  - now apply IH.
Qed.

Lemma upto_last_close_some (s m : jsstring) :
  upto_last_close s = Some m ->
  exists inner post,
    s = inner ++ 125%N :: post /\ ~ In 125%N post /\ m = inner ++ [125%N].
Proof.
  revert m. induction s as [|c s IH]; simpl; [discriminate|]. intros m.
  destruct (upto_last_close s) as [m'|] eqn:U.
  - intros [= <-]. destruct (IH m' eq_refl) as (inner & post & -> & Hn & ->).
    now exists (c :: inner), post.
  - destruct (c =? 125)%N eqn:E; [|discriminate].
    intros [= <-]. apply N.eqb_eq in E. subst c.
    exists [], s. repeat split. now apply upto_last_close_none.
Qed.

Lemma match_braces_some (text m : jsstring) :
  match_braces text = Some m -> brace_span text m.
Proof.
  induction text as [|c text IH]; simpl; [discriminate|].
  destruct (c =? 123)%N eqn:E.
  - apply N.eqb_eq in E. subst c.
    destruct (upto_last_close text) as [m'|] eqn:U; [|discriminate].
    intros [= <-].
    destruct (upto_last_close_some _ U) as (inner & post & -> & Hn & ->).
    exists [], inner, post. repeat split; auto.
  - intros H. destruct (IH H) as (pre & inner & post & -> & Hp & Hn & ->).
    exists (c :: pre), inner, post. repeat split; auto.
    intros [Hc | Hin]; [|contradiction].
    subst c. now rewrite N.eqb_refl in E.
Qed.

Lemma match_braces_none (text : jsstring) :
  match_braces text = None -> no_brace_span text.
Proof.
  unfold no_brace_span.
  induction text as [|c text IH]; simpl.
  - intros _ (pre & inner & post & H). destruct pre; discriminate H.
  - destruct (c =? 123)%N eqn:E.
    + destruct (upto_last_close text) eqn:U; [discriminate|].
      intros _ (pre & inner & post & H).
      apply (upto_last_close_none _ U).
      destruct pre as [|c' pre]; injection H as _ ->;
        rewrite ?in_app_iff; simpl; rewrite ?in_app_iff; simpl; auto.
    + intros H (pre & inner & post & H').
      destruct pre as [|c' pre]; injection H' as H1 H2.
      * subst c. now rewrite N.eqb_refl in E.
      * apply (IH H). now exists pre, inner, post.
Qed.

Lemma first_split_unique (x : N) (pre1 pre2 rest1 rest2 : jsstring) :
  ~ In x pre1 -> ~ In x pre2 ->
  pre1 ++ x :: rest1 = pre2 ++ x :: rest2 ->
  pre1 = pre2 /\ rest1 = rest2.
Proof.
  revert pre2. induction pre1 as [|a pre1 IH]; intros [|b pre2] H1 H2 E;
    simpl in *.
  - now injection E.
  - injection E as <- _. tauto.
  - injection E as -> _. tauto.
  - injection E as -> E. destruct (IH pre2) as [-> ->]; tauto.
Qed.

Lemma last_split_unique (x : N) (inner1 inner2 post1 post2 : jsstring) :
  ~ In x post1 -> ~ In x post2 ->
  inner1 ++ x :: post1 = inner2 ++ x :: post2 ->
  inner1 = inner2 /\ post1 = post2.
Proof.
  intros H1 H2 E. apply (f_equal (@rev N)) in E.
  rewrite !rev_app_distr in E. simpl in E. rewrite <- !app_assoc in E.
  simpl in E.
  apply first_split_unique in E; [|now rewrite <- in_rev ..].
  destruct E as [Ep Ei].
  split; apply rev_inj; assumption.
Qed.

(** The span from the first opening brace to the last closing brace is
    determined by the text, and a text that has one is not without. *)
Lemma brace_span_unique (text m1 m2 : jsstring) :
  brace_span text m1 -> brace_span text m2 -> m1 = m2.
Proof.
  intros (pre1 & inner1 & post1 & E1 & Hp1 & Hq1 & ->)
         (pre2 & inner2 & post2 & E2 & Hp2 & Hq2 & ->).
  rewrite E1 in E2.
  apply first_split_unique in E2 as [_ E2]; [|assumption ..].
  apply last_split_unique in E2 as [-> _]; [reflexivity | assumption ..].
Qed.

Lemma brace_span_excludes (text m : jsstring) :
  brace_span text m -> ~ no_brace_span text.
Proof.
  intros (pre & inner & post & E & _) H. apply H. now exists pre, inner, post.
Qed.

Lemma parse_block_recovered (text : jsstring) :
  parse_block (VString text) = recovered text (try_parse text).
Proof.
  unfold parse_block, recovered. now destruct (try_parse text).
Qed.

(** The parse block never throws on a string: a failed parse is replaced
    by the fallback object. *)
Lemma parse_block_total (text : jsstring) :
  exists t result, parse_block (VString text) = (t, inr result).
Proof.
  rewrite parse_block_recovered. unfold recovered.
  destruct (try_parse text); eauto.
Qed.

(** C3, as the code has it.  The brace scan comes first: when the text
    has an opening brace followed by a closing brace, the only text handed
    to [JSON.parse] is the span from the first opening brace to the last
    closing brace, and the whole text is not parsed; the whole text is
    parsed only when there is no such span.  The keyword fallback is used
    exactly when that one parse throws. *)
Theorem C3_scan_before_whole_text (text : jsstring) :
  exists target,
    ( brace_span text target \/ (no_brace_span text /\ target = text) ) /\
    try_parse text = JSON.parse target /\
    parse_block (VString text) = recovered text (JSON.parse target).
Proof.
  rewrite parse_block_recovered. unfold try_parse.
  destruct (match_braces text) as [jsonMatch|] eqn:S.
  - exists jsonMatch. split; [left; now apply match_braces_some | auto].
  - exists text. split; [right; split; [now apply match_braces_none | auto] | auto].
Qed.

(** C3, as stated, fails.  Whatever parsed values the strict parse is
    taken to accept, trying the whole text first answers differently from
    the handler on one of two completions: accepted, the string denoted
    by [plain_braces] would be the result, while the handler parses the
    brace span, fails, and falls back to the keyword [glass]; rejected,
    [escaped_braces] would fall back to the keyword, while the handler
    takes the parsed string as the result. *)
Lemma C3_spec_order_refuted :
  ~ exists accepts : value -> bool,
      forall text,
        snd (normalizer_spec_order accepts text) = snd (normalizer (VString text)).
Proof.
  intros [accepts H].
  pose proof (H plain_braces) as Ha. pose proof (H escaped_braces) as Hb.
  unfold normalizer_spec_order, try_parse_spec_order in Ha, Hb.
  replace (JSON.parse plain_braces) with (@inr exception _ (VString (lit "{glass}")))
    in Ha by (vm_compute; reflexivity).
  replace (JSON.parse escaped_braces) with (@inr exception _ (VString (lit "{glass}")))
    in Hb by (vm_compute; reflexivity).
  destruct (accepts (VString (lit "{glass}"))).
  - vm_compute in Ha. discriminate Ha.
  - vm_compute in Hb. discriminate Hb.
Qed.

(** The two parsing examples of the specification. *)
Example strict_parse_path :
  normalizer
    (VString (quoted "{'category':'plastic','confidence':0.92,'reasoning':'bottle shape'}"))
  = ([], inr (json_response 200
                (ResultBody (VString (lit "Plastic")) (Fin 0.92)
                   (VString (lit "bottle shape"))))).
Proof. vm_compute. reflexivity. Qed.

Example embedded_object_path :
  normalizer
    (VString (quoted "Sure! Here is my answer: {'category':'Glass','confidence':1.4,'reasoning':'clear bottle'}"))
  = ([], inr (json_response 200
                (ResultBody (VString (lit "Glass")) (Fin 1)
                   (VString (lit "clear bottle"))))).
Proof. vm_compute. reflexivity. Qed.

(* ================================================================== *)
(** ** The keyword fallback *)
(* ================================================================== *)

Lemma foundCategory_spec (text : jsstring) :
  exists cat,
    or_else (foundCategory text) (VString (lit "Plastic")) = VString cat /\
    In cat categories /\
    ( first_occurring text cat \/
      ((forall c, In c categories -> ~ occurs_ci c text) /\ cat = lit "Plastic") ).
Proof.
  unfold foundCategory, find_value.
  destruct (find _ categories) as [cat|] eqn:F.
  - pose proof (find_some _ _ F) as [Hin _].
    destruct (find_first _ _ F) as (before & after & Hsplit & Hp & Hbefore).
    exists cat. unfold or_else. rewrite (label_truthy Hin).
    repeat split; [assumption|]. left.
    exists before, after. repeat split; [assumption | |].
    + now apply includes_infix in Hp.
    + intros c Hc Hocc. apply includes_infix in Hocc.
      rewrite (Hbefore c Hc) in Hocc. discriminate.
  - exists (lit "Plastic"). repeat split; [now left|]. right.
    split; [|reflexivity]. intros c Hc Hocc. apply includes_infix in Hocc.
    rewrite (find_none _ _ F c Hc) in Hocc. discriminate.
Qed.

Lemma respond_fallback (text : jsstring) :
  text <> [] ->
  exists cat,
    ( first_occurring text cat \/
      ((forall c, In c categories -> ~ occurs_ci c text) /\ cat = lit "Plastic") ) /\
    respond (fallback text)
    = ([], inr (json_response 200
                  (ResultBody (VString cat) (Fin 0.75) (VString (firstn 200 text))))).
Proof.
  intros Hne.
  destruct (foundCategory_spec text) as (cat & Hcat & Hin & Hspec).
  exists cat. split; [exact Hspec|].
  assert (C : normalizedCategory (fallback text) = inr (VString cat)).
  { apply normalizedCategory_label; [exact Hin|].
    unfold fallback. rewrite Hcat. reflexivity. }
  assert (R : reasoning_of (fallback text) = inr (VString (firstn 200 text))).
  { destruct text as [|c text]; [contradiction|]. reflexivity. }
  unfold respond. rewrite C, R. reflexivity.
Qed.

(* ================================================================== *)
(** ** The handler *)
(* ================================================================== *)

Lemma not_options (w : world) :
  req_method w <> lit "OPTIONS" ->
  handler w =
    match classify w with
    | (t, inr r) => (t, r)
    | (t, inl error) =>
        (t ++ [ConsoleError (lit "Error in classify-waste function:")],
         failure error)
    end.
Proof.
  intros H. unfold handler. apply str_eqb_neq in H. now rewrite H.
Qed.

Lemma classify_completion (w : world) (aiResponse : value) :
  completion w aiResponse -> truthy aiResponse = true ->
  exists key imageFile,
    classify w =
      let (t, r) := normalizer aiResponse in (model_call key imageFile ++ t, r).
Proof.
  intros [_ (k & Hk & Hne) (fd & f & Hfd & Hget) (r & data & Hf & Hok & Hd & Hc)] T.
  exists k, f. unfold classify. rewrite Hk.
  destruct k as [|c k]; [contradiction|].
  rewrite Hfd. simpl. rewrite Hget. simpl. rewrite Hf. simpl.
  rewrite Hok. simpl. rewrite Hd. simpl. rewrite Hc. simpl.
  rewrite T. simpl. now destruct (normalizer aiResponse).
Qed.

Lemma handler_completion (w : world) (aiResponse : value) :
  completion w aiResponse -> truthy aiResponse = true ->
  forall t r, normalizer aiResponse = (t, inr r) ->
  exists key imageFile, handler w = (model_call key imageFile ++ t, r).
Proof.
  intros C T t r N.
  destruct (classify_completion C T) as (key & f & E).
  exists key, f. rewrite (not_options w (not_preflight C)), E, N. reflexivity.
Qed.

(** Discharges [completion] for a concrete world by evaluation. *)
Ltac completion_by_evaluation :=
  split;
  [ let E := fresh in intros E; vm_compute in E; discriminate E
  | eexists; split; [reflexivity | discriminate]
  | do 2 eexists; split; reflexivity
  | do 2 eexists; repeat split; vm_compute; reflexivity ].

(** C4, as the code has it.  When the completion is not empty and
    neither the whole of it nor its brace span parses, the response is a
    200 whose category is the first label of the closed set, in the set's
    order, that occurs in the completion up to case ([Plastic] when none
    occurs), whose confidence is 0.75 and whose reasoning is the first 200
    code units of the completion (all of it when it is shorter).  The
    reply of the specification's example yields [Metal]. *)
Theorem C4_keyword_fallback :
  (forall (w : world) (text : jsstring),
     completion w (VString text) -> text <> [] ->
     (exists e, JSON.parse text = inl e) ->
     (forall m, match_braces text = Some m -> exists e, JSON.parse m = inl e) ->
     exists cat,
       ( first_occurring text cat \/
         ((forall c, In c categories -> ~ occurs_ci c text) /\ cat = lit "Plastic") ) /\
       snd (handler w)
       = json_response 200
           (ResultBody (VString cat) (Fin 0.75) (VString (firstn 200 text))))
  /\
  snd (handler (answered metal_answer))
  = json_response 200
      (ResultBody (VString (lit "Metal")) (Fin 0.75) (VString metal_text)).
Proof.
  split; [|vm_compute; reflexivity].
  intros w text C Hne [e Hwhole] Hspan.
  assert (P : exists e', try_parse text = inl e').
  { unfold try_parse. destruct (match_braces text) as [m|]; eauto. }
  destruct P as [e' P].
  destruct (respond_fallback Hne) as (cat & Hcat & R).
  exists cat. split; [exact Hcat|].
  assert (T : truthy (VString text) = true)
    by (destruct text; [contradiction | reflexivity]).
  edestruct (handler_completion C T) as (key & f & ->).
  - unfold normalizer. rewrite parse_block_recovered, P. simpl.
    rewrite R. reflexivity.
  - reflexivity.
Qed.

(** C4 at the reply of the specification's example. *)
Lemma C4_keyword_fallback_witness :
  completion (answered metal_answer) (VString metal_text) /\
  metal_text <> [] /\
  (exists e, JSON.parse metal_text = inl e) /\
  (forall m, match_braces metal_text = Some m -> exists e, JSON.parse m = inl e) /\
  exists cat,
    ( first_occurring metal_text cat \/
      ((forall c, In c categories -> ~ occurs_ci c metal_text) /\ cat = lit "Plastic") ) /\
    snd (handler (answered metal_answer))
    = json_response 200
        (ResultBody (VString cat) (Fin 0.75) (VString (firstn 200 metal_text))).
Proof.
  assert (C : completion (answered metal_answer) (VString metal_text))
    by completion_by_evaluation.
  assert (Hne : metal_text <> []) by discriminate.
  assert (Hwhole : exists e, JSON.parse metal_text = inl e)
    by (eexists; vm_compute; reflexivity).
  assert (Hspan : forall m, match_braces metal_text = Some m ->
                            exists e, JSON.parse m = inl e)
    by (intros m H; vm_compute in H; discriminate H).
  split; [exact C|]. split; [exact Hne|]. split; [exact Hwhole|].
  split; [exact Hspan|].
  exact (proj1 C4_keyword_fallback _ _ C Hne Hwhole Hspan).
Defined.

(** C4, as stated, fails at the empty completion: nothing in it parses,
    yet the handler answers it with the 500 envelope [No response from
    AI] before the parse block, not with the fallback result. *)
Lemma C4_empty_completion_rejected :
  ~ forall (w : world) (text : jsstring),
      completion w (VString text) ->
      (exists e, JSON.parse text = inl e) ->
      (forall m, match_braces text = Some m -> exists e, JSON.parse m = inl e) ->
      exists cat,
        snd (handler w)
        = json_response 200
            (ResultBody (VString cat) (Fin 0.75) (VString (firstn 200 text))).
Proof.
  intros H.
  destruct (H (answered empty_answer) []) as [cat E].
  - completion_by_evaluation.
  - eexists. vm_compute. reflexivity.
  - intros m Hm. vm_compute in Hm. discriminate Hm.
  - vm_compute in E. discriminate E.
Qed.

(* ================================================================== *)
(** ** Confidence *)
(* ================================================================== *)

(** A reported confidence that is a number lands in the unit interval. *)
Lemma confidence_of_number (result : value) (q : Q) :
  get result (lit "confidence") = inr (VNumber (Fin q)) ->
  exists n, confidence_of result = inr n /\ in_unit_interval n.
Proof.
  intros G. unfold confidence_of. rewrite G. unfold or_else. simpl.
  destruct (Qeq_bool q 0); simpl.
  - eexists. split; [reflexivity|]. simpl. split; discriminate.
  - unfold Math_max. simpl. destruct (Qle_bool q 0) eqn:L0; unfold Math_min; simpl.
    + eexists. split; [reflexivity|]. simpl. split; discriminate.
    + assert (P : 0 <= q).
      { apply Qlt_le_weak, Qnot_le_lt. intros H.
        apply Qle_bool_iff in H. congruence. }
      destruct (Qle_bool q 1) eqn:L1.
      * eexists. split; [reflexivity|]. simpl. split; [exact P|].
        now apply Qle_bool_iff.
      * eexists. split; [reflexivity|]. simpl. split; discriminate.
Qed.

(** C1, at a completion that reports the confidence as the word [high]:
    the word is truthy, so the default is not taken; [Math.max] converts
    it to [NaN], which [Math.min] returns, and the response carries a
    confidence that is no number of the unit interval. *)
Theorem C1_worded_confidence_is_NaN :
  snd (handler (answered worded_confidence_answer))
  = json_response 200
      (ResultBody (VString (lit "Glass")) NaN (VString (lit "clear bottle")))
  /\ ~ in_unit_interval NaN.
Proof.
  split; [vm_compute; reflexivity | intros []].
Qed.

(** C9.  A falsy [result.confidence] (the number 0, [null], [false] and
    the empty string are falsy) is replaced by 0.8, which is the
    confidence of the response; clamping the reported 0 would have given
    0.  A completion reporting 0 is answered with 0.8. *)
Theorem C9_falsy_confidence_defaults :
  (forall (result c : value),
     get result (lit "confidence") = inr c -> truthy c = false ->
     confidence_of result = inr (Fin 0.8) /\
     forall t r, respond result = (t, inr r) ->
       exists category reasoning, payload r = ResultBody category (Fin 0.8) reasoning)
  /\ Forall (fun c => truthy c = false)
       [VNumber (Fin 0); VNull; VBool false; VString []]
  /\ Math_min (Math_max (Fin 0) (Fin 0)) (Fin 1) = Fin 0
  /\ snd (handler (answered zero_confidence_answer))
     = json_response 200
         (ResultBody (VString (lit "Glass")) (Fin 0.8) (VString (lit "clear bottle"))).
Proof.
  split; [|split; [repeat constructor | split; vm_compute; reflexivity]].
  intros result c G F.
  assert (E : confidence_of result = inr (Fin 0.8)).
  { unfold confidence_of, or_else. rewrite G, F. reflexivity. }
  split; [exact E|]. intros t r. unfold respond.
  destruct (normalizedCategory result) as [e|cat]; [discriminate|].
  rewrite E. destruct (reasoning_of result) as [e|reason]; [discriminate|].
  simpl. intros [= _ <-]. now exists cat, reason.
Qed.

(** C9 at a result whose confidence is 0. *)
Lemma C9_falsy_confidence_defaults_witness :
  get (VObject [(lit "confidence", VNumber (Fin 0))]) (lit "confidence")
    = inr (VNumber (Fin 0))
  /\ truthy (VNumber (Fin 0)) = false
  /\ confidence_of (VObject [(lit "confidence", VNumber (Fin 0))]) = inr (Fin 0.8).
Proof.
  split; [reflexivity|]. split; [reflexivity|].
  exact (proj1 (proj1 C9_falsy_confidence_defaults
                  (VObject [(lit "confidence", VNumber (Fin 0))]) (VNumber (Fin 0))
                  eq_refl eq_refl)).
Defined.

(* ================================================================== *)
(** ** Failures of the normaliser *)
(* ================================================================== *)

(** C5, at the completion [null]: it has no braces, so the whole text is
    parsed, successfully, to [null]; the fallback is not taken, reading
    [result.category] throws a [TypeError], and the outer [catch] answers
    500.  A completion whose category is a number parses as well, and
    throws at [toLowerCase]. *)
Theorem C5_null_completion_throws :
  normalizer (VString (lit "null")) = ([], inl TypeError)
  /\ snd (handler (answered null_answer)) = failure TypeError
  /\ normalizer (VString numbered_category) = ([], inl TypeError).
Proof.
  repeat split; vm_compute; reflexivity.
Qed.

(* ================================================================== *)
(** ** Failure mapping of the handler *)
(* ================================================================== *)

Lemma classify_keyless (w : world) :
  env_LOVABLE_API_KEY w = None \/ env_LOVABLE_API_KEY w = Some [] ->
  classify w = ([], inl (Error (lit "LOVABLE_API_KEY not configured"))).
Proof.
  unfold classify. now intros [-> | ->].
Qed.

Lemma handler_keyless (w : world) :
  env_LOVABLE_API_KEY w = None \/ env_LOVABLE_API_KEY w = Some [] ->
  handler w =
    if str_eqb (req_method w) (lit "OPTIONS") then ([], preflight)
    else ([ConsoleError (lit "Error in classify-waste function:")],
          failure (Error (lit "LOVABLE_API_KEY not configured"))).
Proof.
  intros Hk. unfold handler. now rewrite (classify_keyless w Hk).
Qed.

(** C6.  When the model endpoint answers with a status outside 200 to
    299, the handler has called it once and does not call it again, and
    the response follows from the status alone: 429 gives a 429 with the
    rate-limit message, 402 gives a 402 with the credits message, and
    every other status gives the 500 envelope. *)
Theorem C6_upstream_failure_mapping
    (w : world) (key : jsstring) (formData : list (jsstring * form_entry))
    (imageFile : File) (r : upstream) :
  req_method w <> lit "OPTIONS" ->
  env_LOVABLE_API_KEY w = Some key -> key <> [] ->
  req_formData w = inr formData ->
  form_get (lit "image") formData = Some (FieldFile imageFile) ->
  fetch_outcome w = inr r -> ok r = false ->
  fetches (fst (handler w)) = [Fetch key imageFile] /\
  (upstream_status r = 429%N ->
   snd (handler w)
   = json_response 429
       (ErrorBody (Message (lit "Rate limit exceeded. Please try again later.")) None)) /\
  (upstream_status r = 402%N ->
   snd (handler w)
   = json_response 402
       (ErrorBody
          (Message (lit "AI credits exhausted. Please add credits to your workspace."))
          None)) /\
  (upstream_status r <> 429%N -> upstream_status r <> 402%N ->
   snd (handler w)
   = json_response 500
       (ErrorBody
          (Message (lit "AI Gateway error: " ++ decimal (upstream_status r)))
          (Some (lit "Failed to classify waste. Please try again.")))).
Proof.
  intros Hm Hk Hne Hfd Hget Hf Hok.
  rewrite (not_options w Hm). unfold classify. rewrite Hk.
  destruct key as [|c key]; [contradiction|].
  rewrite Hfd. simpl. rewrite Hget. simpl. rewrite Hf. simpl. rewrite Hok. simpl.
  unfold upstream_failure. simpl.
  destruct (upstream_status r =? 429)%N eqn:E1;
    [|destruct (upstream_status r =? 402)%N eqn:E2]; simpl;
    rewrite ?N.eqb_eq, ?N.eqb_neq in *;
    (split; [reflexivity|]); repeat split; intros; congruence.
Qed.

(** C6 at a model endpoint that answers 503. *)
Lemma C6_upstream_failure_mapping_witness :
  fetches (fst (handler (refused 503)))
  = [Fetch (lit "secret")
       {| file_type := lit "image/png"; file_bytes := [137; 80; 78; 71]%N |}]
  /\ snd (handler (refused 503))
     = json_response 500
         (ErrorBody (Message (lit "AI Gateway error: 503"))
            (Some (lit "Failed to classify waste. Please try again."))).
Proof.
  assert (Hm : req_method (refused 503) <> lit "OPTIONS")
    by (intros H; vm_compute in H; discriminate H).
  assert (Hne : lit "secret" <> []) by discriminate.
  destruct (C6_upstream_failure_mapping (refused 503)
              Hm eq_refl Hne eq_refl eq_refl eq_refl eq_refl)
    as (Hcalls & _ & _ & Hother).
  split; [exact Hcalls|].
  apply Hother; discriminate.
Defined.

(** C7, as the code has it.  With the key unset or empty, no request
    reaches the model endpoint; every request other than a preflight is
    answered with the 500 envelope carrying the configuration message,
    and a preflight is answered as usual, without reading the key. *)
Theorem C7_missing_key_fails_fast (w : world) :
  env_LOVABLE_API_KEY w = None \/ env_LOVABLE_API_KEY w = Some [] ->
  fetches (fst (handler w)) = [] /\
  (req_method w <> lit "OPTIONS" ->
   handler w
   = ([ConsoleError (lit "Error in classify-waste function:")],
      json_response 500
        (ErrorBody (Message (lit "LOVABLE_API_KEY not configured"))
           (Some (lit "Failed to classify waste. Please try again."))))) /\
  (req_method w = lit "OPTIONS" -> handler w = ([], preflight)).
Proof.
  intros Hk. rewrite (handler_keyless w Hk).
  destruct (str_eqb (req_method w) (lit "OPTIONS")) eqn:E.
  - apply str_eqb_eq in E.
    split; [reflexivity|]. split; [intros H; contradiction | reflexivity].
  - apply str_eqb_neq in E.
    split; [reflexivity|]. split; [reflexivity | intros H; contradiction].
Qed.

(** C7 at a [POST] that finds no key. *)
Lemma C7_missing_key_fails_fast_witness :
  (env_LOVABLE_API_KEY (keyless (lit "POST")) = None \/
   env_LOVABLE_API_KEY (keyless (lit "POST")) = Some []) /\
  fetches (fst (handler (keyless (lit "POST")))) = [] /\
  status (snd (handler (keyless (lit "POST")))) = 500%N.
Proof.
  assert (Hk : env_LOVABLE_API_KEY (keyless (lit "POST")) = None \/
               env_LOVABLE_API_KEY (keyless (lit "POST")) = Some [])
    by (left; reflexivity).
  assert (Hm : req_method (keyless (lit "POST")) <> lit "OPTIONS")
    by (intros H; vm_compute in H; discriminate H).
  destruct (C7_missing_key_fails_fast (keyless (lit "POST")) Hk) as (Hf & Hpost & _).
  split; [exact Hk|]. split; [exact Hf|].
  rewrite (Hpost Hm). reflexivity.
Defined.

(** C7, as stated, fails: a preflight that finds no key is answered 200,
    not 500. *)
Lemma C7_preflight_without_key :
  ~ forall w : world,
      env_LOVABLE_API_KEY w = None -> status (snd (handler w)) = 500%N.
Proof.
  intros H. specialize (H (keyless (lit "OPTIONS")) eq_refl).
  vm_compute in H. discriminate H.
Qed.

(** C8, as the code has it.  A request other than a preflight, with the
    key configured and a form without an [image] field, is answered 400
    with the error [No image provided], and nothing is logged or called. *)
Theorem C8_no_image_with_key
    (w : world) (key : jsstring) (formData : list (jsstring * form_entry)) :
  req_method w <> lit "OPTIONS" ->
  env_LOVABLE_API_KEY w = Some key -> key <> [] ->
  req_formData w = inr formData ->
  form_get (lit "image") formData = None ->
  handler w
  = ([], json_response 400 (ErrorBody (Message (lit "No image provided")) None)).
Proof.
  intros Hm Hk Hne Hfd Hget.
  rewrite (not_options w Hm). unfold classify. rewrite Hk.
  destruct key as [|c key]; [contradiction|].
  rewrite Hfd. simpl. rewrite Hget. reflexivity.
Qed.

(** C8 at a form that has a [note] field only. *)
Lemma C8_no_image_with_key_witness :
  handler imageless
  = ([], json_response 400 (ErrorBody (Message (lit "No image provided")) None)).
Proof.
  apply (C8_no_image_with_key imageless (key := lit "secret")
           (formData := [(lit "note", FieldString (lit "hello"))])).
  - intros H. vm_compute in H. discriminate H.
  - reflexivity.
  - discriminate.
  - reflexivity.
  - reflexivity.
Defined.

(** C8, as stated, fails: without a key, a request with no image field is
    answered 500, not 400. *)
Lemma C8_no_image_without_key :
  ~ forall (w : world) (formData : list (jsstring * form_entry)),
      req_formData w = inr formData ->
      form_get (lit "image") formData = None ->
      status (snd (handler w)) = 400%N.
Proof.
  intros H. specialize (H (keyless (lit "POST")) [] eq_refl eq_refl).
  vm_compute in H. discriminate H.
Qed.

(** C10.  The key is checked before the form is read: without a key,
    every request other than a preflight is answered with the 500
    configuration error, whatever the form holds, a form with no image
    field included; and a 400 is only ever sent when the key is
    configured. *)
Theorem C10_key_check_precedes_image_check :
  (forall w : world,
     req_method w <> lit "OPTIONS" ->
     env_LOVABLE_API_KEY w = None ->
     snd (handler w)
     = json_response 500
         (ErrorBody (Message (lit "LOVABLE_API_KEY not configured"))
            (Some (lit "Failed to classify waste. Please try again."))))
  /\
  (forall w : world,
     status (snd (handler w)) = 400%N ->
     exists key, env_LOVABLE_API_KEY w = Some key /\ key <> []).
Proof.
  split.
  - intros w Hm Hk. rewrite (handler_keyless w (or_introl Hk)).
    apply str_eqb_neq in Hm. now rewrite Hm.
  - intros w H.
    destruct (env_LOVABLE_API_KEY w) as [[|c key]|] eqn:Hk.
    + rewrite (handler_keyless w (or_intror Hk)) in H.
      destruct (str_eqb (req_method w) (lit "OPTIONS")); discriminate H.
    + exists (c :: key). split; [reflexivity | discriminate].
    + rewrite (handler_keyless w (or_introl Hk)) in H.
      destruct (str_eqb (req_method w) (lit "OPTIONS")); discriminate H.
Qed.

(** C10 at a [POST] without a key and without an image. *)
Lemma C10_key_check_precedes_image_check_witness :
  req_method (keyless (lit "POST")) <> lit "OPTIONS" /\
  env_LOVABLE_API_KEY (keyless (lit "POST")) = None /\
  form_get (lit "image") [] = None /\
  snd (handler (keyless (lit "POST")))
  = json_response 500
      (ErrorBody (Message (lit "LOVABLE_API_KEY not configured"))
         (Some (lit "Failed to classify waste. Please try again."))).
Proof.
  assert (Hm : req_method (keyless (lit "POST")) <> lit "OPTIONS")
    by (intros H; vm_compute in H; discriminate H).
  split; [exact Hm|]. split; [reflexivity|]. split; [reflexivity|].
  exact (proj1 C10_key_check_precedes_image_check (keyless (lit "POST")) Hm eq_refl).
Defined.

(* ================================================================== *)
(** ** Every path through the handler *)
(* ================================================================== *)

Lemma respond_inv (result : value) (t : list event) (r : Response) :
  respond result = (t, inr r) ->
  t = [] /\
  exists category confidence reasoning,
    normalizedCategory result = inr category /\
    confidence_of result = inr confidence /\
    reasoning_of result = inr reasoning /\
    r = json_response 200 (ResultBody category confidence reasoning).
Proof.
  unfold respond.
  destruct (normalizedCategory result) as [e|c]; [discriminate|].
  destruct (confidence_of result) as [e|n]; [discriminate|].
  destruct (reasoning_of result) as [e|re]; [discriminate|].
  simpl. intros [= <- <-]. split; [reflexivity|]. now exists c, n, re.
Qed.

Lemma respond_trace (result : value) : fst (respond result) = [].
Proof.
  unfold respond.
  destruct (normalizedCategory result) as [e|c]; [reflexivity|].
  destruct (confidence_of result) as [e|n]; [reflexivity|].
  destruct (reasoning_of result) as [e|re]; reflexivity.
Qed.

(** The normaliser logs at most the parse failure, and a response it
    returns was built by [respond]. *)
Lemma normalizer_inv (aiResponse : value) (t : list event) (o : outcome Response) :
  normalizer aiResponse = (t, o) ->
  fetches t = [] /\
  forall r, o = inr r ->
    exists result category confidence reasoning,
      normalizedCategory result = inr category /\
      confidence_of result = inr confidence /\
      reasoning_of result = inr reasoning /\
      r = json_response 200 (ResultBody category confidence reasoning).
Proof.
  unfold normalizer, parse_block.
  assert (R : forall result l,
    fetches l = [] ->
    (let (t', r) := respond result in (l ++ t', r)) = (t, o) ->
    fetches t = [] /\
    forall r, o = inr r ->
      exists result category confidence reasoning,
        normalizedCategory result = inr category /\
        confidence_of result = inr confidence /\
        reasoning_of result = inr reasoning /\
        r = json_response 200 (ResultBody category confidence reasoning)).
  { intros result l Hl. pose proof (respond_trace result) as Ht.
    destruct (respond result) as [t' o'] eqn:E. simpl in Ht. subst t'.
    intros [= <- <-]. rewrite app_nil_r. split; [exact Hl|].
    intros r ->. destruct (respond_inv _ E) as (_ & c & n & re & H).
    now exists result, c, n, re. }
  destruct aiResponse as [| |b|n|text|l|p];
    try (simpl; intros [= <- <-]; split; [reflexivity | discriminate]).
  destruct (try_parse text) as [e|result]; simpl.
  - apply (R (fallback text) [ConsoleError (lit "Failed to parse AI response:")]).
    reflexivity.
  - apply (R result []). reflexivity.
Qed.

(** Splits a goal about [handler w] along the paths of the source. *)
Ltac handler_paths w :=
  unfold handler, classify;
  destruct (str_eqb (req_method w) (lit "OPTIONS")) eqn:Hmethod;
  [ | destruct (env_LOVABLE_API_KEY w) as [[|c key]|] eqn:Hkey;
      [ | destruct (req_formData w) as [e|formData] eqn:Hform;
          cbn [bind lift emit ret throw];
          [ | destruct (form_get (lit "image") formData)
                as [[[|c' s]|imageFile]|] eqn:Himage;
              cbn [bind lift emit ret throw];
              [ | | destruct (fetch_outcome w) as [e|r] eqn:Hfetch;
                    cbn [bind lift emit ret throw];
                    [ | destruct (ok r) eqn:Hok; cbn [bind lift emit ret throw negb];
                        [ destruct (JSON.parse (upstream_body r)) as [e|data] eqn:Hdata;
                          cbn [bind lift emit ret throw];
                          [ | destruct (content_of data) as [e|aiResponse] eqn:Hcontent;
                              cbn [bind lift emit ret throw];
                              [ | destruct (truthy aiResponse) eqn:Htruthy;
                                  cbn [bind lift emit ret throw negb];
                                  [ destruct (normalizer aiResponse) as [t [e|resp]] eqn:Hnorm
                                  | ] ] ]
                        | unfold upstream_failure; cbn [bind lift emit ret throw];
                          destruct (upstream_status r =? 429)%N eqn:H429;
                          cbn [bind lift emit ret throw];
                          [ | destruct (upstream_status r =? 402)%N eqn:H402;
                              cbn [bind lift emit ret throw] ] ] ]
              | ] ]
      | ] ];
  cbn [fst snd app].

Lemma normalizer_trace (aiResponse : value) :
  fst (normalizer aiResponse) = [] \/
  fst (normalizer aiResponse) = [ConsoleError (lit "Failed to parse AI response:")].
Proof.
  unfold normalizer, parse_block.
  destruct aiResponse as [| |b|n|text|l|p]; try (right; reflexivity).
  destruct (try_parse text) as [e|result]; cbn [bind emit ret].
  - right. pose proof (respond_trace (fallback text)) as H.
    destruct (respond (fallback text)) as [t o]. simpl in *. now subst t.
  - left. pose proof (respond_trace result) as H.
    destruct (respond result) as [t o]. simpl in *. now subst t.
Qed.

(* ================================================================== *)
(** ** Invariants of the handler *)
(* ================================================================== *)

(** X1.  Every response carries the two CORS headers, and every response
    other than the answer to a preflight is declared as JSON. *)
Theorem X1_cors_on_every_response (w : world) :
  (forall h, In h corsHeaders -> In h (headers (snd (handler w)))) /\
  (req_method w = lit "OPTIONS" \/
   In (lit "Content-Type", lit "application/json") (headers (snd (handler w)))).
Proof.
  assert (J : forall b code h,
            In h corsHeaders -> In h (headers (json_response code b))).
  { intros b code h Hin. apply in_or_app. now left. }
  assert (T : forall b code,
            In (lit "Content-Type", lit "application/json")
               (headers (json_response code b))).
  { intros b code. apply in_or_app. right. now left. }
  handler_paths w.
  1: { split; [auto | left; now apply str_eqb_eq]. }
  all: try (split; [intros h Hin; now apply J | right; apply T]).
  destruct (normalizer_inv _ Hnorm) as (_ & H).
  destruct (H resp eq_refl) as (result & cat & n & re & _ & _ & _ & ->).
  split; [intros h Hin; now apply J | right; apply T].
Qed.

(** X2.  The status and the body go together: no body only on a
    preflight, with 200; a result only with 200; an error without details
    only with 400, 402 or 429; an error with details only with 500, the
    details being the fixed sentence. *)
Theorem X2_status_and_body (w : world) :
  match payload (snd (handler w)) with
  | NoBody => status (snd (handler w)) = 200%N /\ req_method w = lit "OPTIONS"
  | ResultBody _ _ _ =>
      status (snd (handler w)) = 200%N /\ req_method w <> lit "OPTIONS"
  | ErrorBody _ None => In (status (snd (handler w))) [400; 402; 429]%N
  | ErrorBody _ (Some details) =>
      status (snd (handler w)) = 500%N /\
      details = lit "Failed to classify waste. Please try again."
  end.
Proof.
  handler_paths w.
  1: { split; [reflexivity | now apply str_eqb_eq]. }
  all: try (split; reflexivity).
  all: try (simpl; tauto).
  destruct (normalizer_inv _ Hnorm) as (_ & H).
  destruct (H resp eq_refl) as (result & cat & n & re & _ & _ & _ & ->).
  split; [reflexivity | now apply str_eqb_neq].
Qed.

(** X3.  The outer [catch] logs exactly the invocations that are answered
    500: its line is on the error console if and only if the status is
    500. *)
Theorem X3_every_500_is_logged (w : world) :
  In outer_catch_log (fst (handler w)) <-> status (snd (handler w)) = 500%N.
Proof.
  assert (N : forall v t o, normalizer v = (t, o) -> ~ In outer_catch_log t).
  { intros v t o E Hin. pose proof (normalizer_trace v) as H. rewrite E in H.
    simpl in H. destruct H as [-> | ->]; [destruct Hin|].
    destruct Hin as [Hin | []]. vm_compute in Hin. discriminate Hin. }
  assert (Last : forall l, In outer_catch_log (l ++ [outer_catch_log])).
  { intros l. apply in_or_app. right. now left. }
  unfold outer_catch_log in *.
  handler_paths w.
  all: try (split; [reflexivity | intros _; first [now left | apply Last
            | right; right; apply Last | right; right; right; apply Last
            | right; right; now left | right; right; right; now left ]]).
  all: try (split; [ intros Hin | intros Hs; discriminate Hs ]).
  all: try (simpl in Hin; repeat (destruct Hin as [Hin | Hin];
              [vm_compute in Hin; discriminate Hin|]); contradiction).
  destruct (normalizer_inv _ Hnorm) as (_ & H).
  destruct (H resp eq_refl) as (result & cat & n & re & _ & _ & _ & ->).
  split; [intros Hin | intros Hs; discriminate Hs].
  simpl in Hin. repeat (destruct Hin as [Hin | Hin];
    [vm_compute in Hin; discriminate Hin|]).
  exfalso. exact (N _ _ _ Hnorm Hin).
Qed.

(** X4.  The model endpoint is never called more than once, and never
    without a key and an image: a call is made only for a request other
    than a preflight, with the configured key as bearer and the file of
    the first [image] field. *)
Theorem X4_at_most_one_call (w : world) :
  fetches (fst (handler w)) = [] \/
  exists key imageFile formData,
    fetches (fst (handler w)) = [Fetch key imageFile] /\
    req_method w <> lit "OPTIONS" /\
    env_LOVABLE_API_KEY w = Some key /\ key <> [] /\
    req_formData w = inr formData /\
    form_get (lit "image") formData = Some (FieldFile imageFile).
Proof.
  assert (A : forall t l, fetches t = [] -> fetches (t ++ l) = fetches l).
  { intros t l H. unfold fetches in *. now rewrite filter_app, H. }
  handler_paths w; try (left; reflexivity).
  all: right; exists (c :: key), imageFile, formData.
  all: apply str_eqb_neq in Hmethod.
  all: try (split; [reflexivity | repeat split; try assumption; discriminate]).
  all: destruct (normalizer_inv _ Hnorm) as (Hf & _).
  all: split; [|repeat split; try assumption; discriminate].
  all: cbn [fetches filter app]; fold (fetches t);
       fold (fetches (t ++ [ConsoleError (lit "Error in classify-waste function:")])).
  - rewrite A by assumption. reflexivity.
  - now rewrite Hf.
Qed.

(** Uses the equations between the hypotheses of a statement and the
    cases of [handler_paths]. *)
Ltac settle_eqs :=
  repeat match goal with
  | H : _ = _ |- _ => discriminate H
  | H : Some _ = Some _ |- _ => injection H as H
  | H : inr _ = inr _ |- _ => injection H as H
  | H : inl _ = inl _ |- _ => injection H as H
  | H : FieldFile _ = FieldFile _ |- _ => injection H as H
  | H : FieldString _ = FieldString _ |- _ => injection H as H
  | H : ?x = _ |- _ => is_var x; subst x
  | H : _ = ?x |- _ => is_var x; subst x
  | H : ?x <> ?x |- _ => contradiction
  | H1 : ?a = _, H2 : ?a = _ |- _ => rewrite H1 in H2
  end.

Lemma fetches_app_left (t l : list event) :
  fetches t = [] -> fetches (t ++ l) = fetches l.
Proof.
  intros H. unfold fetches in *. now rewrite filter_app, H.
Qed.

(** X5.  A request other than a preflight that brings an image file,
    with the key configured, leads to exactly one call of the model
    endpoint, whatever the endpoint answers. *)
Theorem X5_image_and_key_give_one_call
    (w : world) (k : jsstring) (fd : list (jsstring * form_entry)) (f : File) :
  req_method w <> lit "OPTIONS" ->
  env_LOVABLE_API_KEY w = Some k -> k <> [] ->
  req_formData w = inr fd ->
  form_get (lit "image") fd = Some (FieldFile f) ->
  fetches (fst (handler w)) = [Fetch k f].
Proof.
  intros Hm Hk Hne Hfd Hget.
  handler_paths w.
  all: try (apply str_eqb_eq in Hmethod; contradiction).
  all: settle_eqs.
  all: try reflexivity.
  all: destruct (normalizer_inv _ Hnorm) as (Hf & _).
  all: cbn [fetches filter app]; fold (fetches t);
       fold (fetches (t ++ [ConsoleError (lit "Error in classify-waste function:")])).
  - rewrite fetches_app_left by assumption. reflexivity.
  - now rewrite Hf.
Qed.

(** X5 at a request whose model endpoint answers 503. *)
Lemma X5_image_and_key_give_one_call_witness :
  fetches (fst (handler (refused 503)))
  = [Fetch (lit "secret")
       {| file_type := lit "image/png"; file_bytes := [137; 80; 78; 71]%N |}].
Proof.
  assert (Hm : req_method (refused 503) <> lit "OPTIONS")
    by (intros H; vm_compute in H; discriminate H).
  assert (Hne : lit "secret" <> []) by discriminate.
  exact (X5_image_and_key_give_one_call (refused 503)
           Hm eq_refl Hne eq_refl eq_refl).
Defined.

(** A body without [choices], or with an empty list of them, holds no
    completion. *)
Lemma content_of_without_choices (props : list (jsstring * value)) :
  lookup (lit "choices") props = None \/
  lookup (lit "choices") props = Some (VArray []) ->
  content_of (VObject props) = inr VUndefined.
Proof.
  unfold content_of. simpl. now intros [-> | ->].
Qed.

(** X6.  A model endpoint that answers with success but whose body holds
    no completion, or a falsy one (the empty string, [null], 0), is
    answered 500 with the error [No response from AI], after one call. *)
Theorem X6_missing_completion
    (w : world) (k : jsstring) (fd : list (jsstring * form_entry)) (f : File)
    (u : upstream) (d v : value) :
  req_method w <> lit "OPTIONS" ->
  env_LOVABLE_API_KEY w = Some k -> k <> [] ->
  req_formData w = inr fd ->
  form_get (lit "image") fd = Some (FieldFile f) ->
  fetch_outcome w = inr u -> ok u = true ->
  JSON.parse (upstream_body u) = inr d ->
  content_of d = inr v -> truthy v = false ->
  handler w
  = (model_call k f ++ [outer_catch_log],
     json_response 500
       (ErrorBody (Message (lit "No response from AI"))
          (Some (lit "Failed to classify waste. Please try again.")))).
Proof.
  intros Pm Pk Pne Pfd Pget Pf Pok Pd Pc Pv.
  handler_paths w.
  all: try (apply str_eqb_eq in Hmethod; contradiction).
  all: settle_eqs.
  reflexivity.
Qed.

(** X6 at an answer whose completion is the empty string. *)
Lemma X6_missing_completion_witness :
  snd (handler (answered empty_answer))
  = json_response 500
      (ErrorBody (Message (lit "No response from AI"))
         (Some (lit "Failed to classify waste. Please try again."))).
Proof.
  assert (Hm : req_method (answered empty_answer) <> lit "OPTIONS")
    by (intros H; vm_compute in H; discriminate H).
  assert (Hne : lit "secret" <> []) by discriminate.
  assert (Hd : JSON.parse (upstream_body
                 {| upstream_status := 200; upstream_body := empty_answer |})
               = inr (VObject [(lit "choices",
                        VArray [VObject [(lit "message",
                          VObject [(lit "content", VString [])])]])]))
    by (vm_compute; reflexivity).
  rewrite (X6_missing_completion (answered empty_answer)
             Hm eq_refl Hne eq_refl eq_refl eq_refl eq_refl Hd eq_refl eq_refl).
  reflexivity.
Defined.

(** X7.  An [image] field that is not a file: an empty text is treated as
    no image and answered 400; any other text is answered 500, the
    handler failing on its missing [arrayBuffer] method.  Neither calls
    the model endpoint. *)
Theorem X7_text_in_the_image_field
    (w : world) (k : jsstring) (fd : list (jsstring * form_entry)) (s0 : jsstring) :
  req_method w <> lit "OPTIONS" ->
  env_LOVABLE_API_KEY w = Some k -> k <> [] ->
  req_formData w = inr fd ->
  form_get (lit "image") fd = Some (FieldString s0) ->
  handler w
  = match s0 with
    | [] => ([], json_response 400 (ErrorBody (Message (lit "No image provided")) None))
    | _ :: _ =>
        ([outer_catch_log],
         json_response 500
           (ErrorBody (EngineMessage TypeError)
              (Some (lit "Failed to classify waste. Please try again."))))
    end.
Proof.
  intros Pm Pk Pne Pfd Pget.
  handler_paths w.
  all: try (apply str_eqb_eq in Hmethod; contradiction).
  all: settle_eqs.
  all: reflexivity.
Qed.

(** X7 at a form whose [image] field holds the text [cat.png]. *)
Lemma X7_text_in_the_image_field_witness :
  status (snd (handler
    {| req_method := lit "POST";
       env_LOVABLE_API_KEY := Some (lit "secret");
       req_formData := inr [(lit "image", FieldString (lit "cat.png"))];
       fetch_outcome := inl NetworkError |})) = 500%N.
Proof.
  rewrite (X7_text_in_the_image_field
             {| req_method := lit "POST";
                env_LOVABLE_API_KEY := Some (lit "secret");
                req_formData := inr [(lit "image", FieldString (lit "cat.png"))];
                fetch_outcome := inl NetworkError |}
             (k := lit "secret")
             (fd := [(lit "image", FieldString (lit "cat.png"))])
             (s0 := lit "cat.png")).
  - reflexivity.
  - intros H. vm_compute in H. discriminate H.
  - reflexivity.
  - discriminate.
  - reflexivity.
  - reflexivity.
Defined.

(** X8.  Failures around the model call end in the 500 envelope carrying
    the error of the failure, after the one call: the call itself failing,
    and a successful answer whose body is not JSON. *)
Theorem X8_failed_call_or_body
    (w : world) (k : jsstring) (fd : list (jsstring * form_entry)) (f : File)
    (err : exception) :
  req_method w <> lit "OPTIONS" ->
  env_LOVABLE_API_KEY w = Some k -> k <> [] ->
  req_formData w = inr fd ->
  form_get (lit "image") fd = Some (FieldFile f) ->
  fetch_outcome w = inl err \/
  (exists u, fetch_outcome w = inr u /\ ok u = true /\
             JSON.parse (upstream_body u) = inl err) ->
  handler w
  = ([ConsoleLog (lit "Calling Lovable AI for waste classification...");
      Fetch k f; outer_catch_log],
     failure err).
Proof.
  intros Pm Pk Pne Pfd Pget [Pf | (u & Pf & Pok & Pd)].
  - handler_paths w.
    all: try (apply str_eqb_eq in Hmethod; contradiction).
    all: settle_eqs.
    reflexivity.
  - handler_paths w.
    all: try (apply str_eqb_eq in Hmethod; contradiction).
    all: settle_eqs.
    reflexivity.
Qed.

(** X8 at a model endpoint that answers 200 with the body [busy]. *)
Lemma X8_failed_call_or_body_witness :
  snd (handler (answered (lit "busy"))) = failure SyntaxError.
Proof.
  assert (Hm : req_method (answered (lit "busy")) <> lit "OPTIONS")
    by (intros H; vm_compute in H; discriminate H).
  assert (Hne : lit "secret" <> []) by discriminate.
  rewrite (X8_failed_call_or_body (answered (lit "busy")) (err := SyntaxError)
             Hm eq_refl Hne eq_refl eq_refl).
  - reflexivity.
  - right. eexists. split; [reflexivity|]. split; [reflexivity|].
    vm_compute. reflexivity.
Defined.

(* ================================================================== *)
(** ** Invariants of the result *)
(* ================================================================== *)

Lemma clamp_range (m : number) :
  Math_min (Math_max m (Fin 0)) (Fin 1) = NaN \/
  in_unit_interval (Math_min (Math_max m (Fin 0)) (Fin 1)).
Proof.
  destruct m as [| |q|]; [left; reflexivity | right | | right];
    try (vm_compute; split; discriminate).
  right. unfold Math_max. simpl.
  destruct (Qle_bool q 0) eqn:L0; unfold Math_min; simpl.
  - split; discriminate.
  - assert (P : 0 <= q).
    { apply Qlt_le_weak, Qnot_le_lt. intros H.
      apply Qle_bool_iff in H. congruence. }
    destruct (Qle_bool q 1) eqn:L1; simpl.
    + split; [exact P | now apply Qle_bool_iff].
    + split; discriminate.
Qed.

Lemma confidence_of_range (result : value) (n : number) :
  confidence_of result = inr n -> n = NaN \/ in_unit_interval n.
Proof.
  unfold confidence_of.
  destruct (get result (lit "confidence")) as [e|c0]; [discriminate|].
  destruct (ToNumber _) as [e|m]; [discriminate|].
  intros [= <-]. apply clamp_range.
Qed.

Lemma normalizedCategory_kind (result c0 : value) :
  normalizedCategory result = inr c0 -> string_or_nullish c0.
Proof.
  unfold normalizedCategory.
  destruct (get result (lit "category")) as [e|cat]; [discriminate|].
  destruct cat as [| |b|n|s0|l|p]; simpl; try discriminate.
  - intros [= <-]. exact I.
  - intros [= <-]. exact I.
  - intros [= <-]. unfold or_else, find_value.
    destruct (find _ validCategories) as [x|]; [|exact I].
    destruct x; exact I.
Qed.

Lemma reasoning_of_truthy (result r0 : value) :
  reasoning_of result = inr r0 -> truthy r0 = true.
Proof.
  unfold reasoning_of.
  destruct (get result (lit "reasoning")) as [e|re]; [discriminate|].
  intros [= <-]. unfold or_else. destruct (truthy re) eqn:T; [exact T | reflexivity].
Qed.

(** X9.  Whatever the request and the model's answer, a result that the
    handler sends has a confidence that is a number between 0 and 1 or
    [NaN], never a number outside that interval; a category that is a
    string, [null] or [undefined]; and a reasoning that is truthy, so
    never the empty string and never missing. *)
Theorem X9_shape_of_every_result
    (w : world) (category : value) (confidence : number) (reasoning : value) :
  payload (snd (handler w)) = ResultBody category confidence reasoning ->
  (confidence = NaN \/ in_unit_interval confidence) /\
  string_or_nullish category /\
  truthy reasoning = true.
Proof.
  handler_paths w; try discriminate.
  destruct (normalizer_inv _ Hnorm) as (_ & H).
  destruct (H resp eq_refl) as (result & cat & n & re & Hc & Hn & Hr & ->).
  intros [= <- <- <-]. split; [|split].
  - now apply (confidence_of_range result).
  - now apply (normalizedCategory_kind result).
  - now apply (reasoning_of_truthy result).
Qed.

(** X9 at the answer that reports the confidence 0. *)
Lemma X9_shape_of_every_result_witness :
  (Fin 0.8 = NaN \/ in_unit_interval (Fin 0.8)) /\
  string_or_nullish (VString (lit "Glass")) /\
  truthy (VString (lit "clear bottle")) = true.
Proof.
  apply (X9_shape_of_every_result (answered zero_confidence_answer)).
  vm_compute. reflexivity.
Defined.

(** X10.  The clamp on a reported number [q]: 0.8 when [q] is zero, 0
    when it is negative, [q] itself when it lies between 0 (excluded) and
    1, and 1 when it is above 1. *)
Theorem X10_clamp_of_a_number (result : value) (q : Q) :
  get result (lit "confidence") = inr (VNumber (Fin q)) ->
  (q == 0 -> confidence_of result = inr (Fin 0.8)) /\
  (q < 0 -> confidence_of result = inr (Fin 0)) /\
  (0 < q -> q <= 1 -> confidence_of result = inr (Fin q)) /\
  (1 < q -> confidence_of result = inr (Fin 1)).
Proof.
  intros G. unfold confidence_of, or_else. rewrite G. simpl.
  destruct (Qeq_bool q 0) eqn:Ez; simpl.
  - apply Qeq_bool_iff in Ez.
    repeat split; intros; try reflexivity; exfalso.
    + rewrite Ez in *. now apply (Qlt_irrefl 0).
    + rewrite Ez in *. now apply (Qlt_irrefl 0).
    + rewrite Ez in *. discriminate.
  - assert (N0 : ~ q == 0)
      by (intros H; apply Qeq_bool_iff in H; congruence).
    unfold Math_max, Math_min. simpl.
    destruct (Qle_bool q 0) eqn:E0; simpl.
    + apply Qle_bool_iff in E0.
      repeat split; intros; try reflexivity; exfalso.
      * contradiction.
      * now apply (Qlt_not_le 0 q).
      * apply (Qlt_not_le 1 q); [assumption|].
        apply Qle_trans with 0; [assumption | discriminate].
    + assert (P0 : ~ q <= 0)
        by (intros H; apply Qle_bool_iff in H; congruence).
      destruct (Qle_bool q 1) eqn:E1; simpl.
      * apply Qle_bool_iff in E1.
        repeat split; intros; try reflexivity; exfalso.
        -- contradiction.
        -- apply P0. now apply Qlt_le_weak.
        -- now apply (Qlt_not_le 1 q).
      * assert (P1 : ~ q <= 1)
          by (intros H; apply Qle_bool_iff in H; congruence).
        repeat split; intros; try reflexivity; exfalso.
        -- contradiction.
        -- apply P0. now apply Qlt_le_weak.
        -- contradiction.
Qed.

(** X10 at a reported confidence of 1.4. *)
Lemma X10_clamp_of_a_number_witness :
  confidence_of (VObject [(lit "confidence", VNumber (Fin 1.4))]) = inr (Fin 1).
Proof.
  apply (X10_clamp_of_a_number
           (VObject [(lit "confidence", VNumber (Fin 1.4))]) (q := 1.4)).
  - reflexivity.
  - reflexivity.
Defined.

(** X11.  A confidence that is reported as a number or a boolean, as
    [null], or not at all, always gives a number between 0 and 1. *)
Theorem X11_plain_confidence_in_range (result c0 : value) :
  get result (lit "confidence") = inr c0 -> plain_confidence c0 ->
  exists n, confidence_of result = inr n /\ in_unit_interval n.
Proof.
  intros G P. unfold confidence_of. rewrite G.
  destruct c0 as [| |b|n|s0|l|p]; try contradiction.
  - eexists. split; [reflexivity|]. vm_compute. split; discriminate.
  - eexists. split; [reflexivity|]. vm_compute. split; discriminate.
  - destruct b; (eexists; split; [reflexivity|]; vm_compute; split; discriminate).
  - destruct n as [| |q|].
    + eexists. split; [reflexivity|]. vm_compute. split; discriminate.
    + eexists. split; [reflexivity|]. vm_compute. split; discriminate.
    + destruct (confidence_of_number result G) as (m & Hm & Hr).
      unfold confidence_of in Hm. rewrite G in Hm. now exists m.
    + eexists. split; [reflexivity|]. vm_compute. split; discriminate.
Qed.

(** X11 at a confidence reported as [true]. *)
Lemma X11_plain_confidence_in_range_witness :
  exists n,
    confidence_of (VObject [(lit "confidence", VBool true)]) = inr n /\
    in_unit_interval n.
Proof.
  apply (X11_plain_confidence_in_range
           (VObject [(lit "confidence", VBool true)]) (c0 := VBool true)).
  - reflexivity.
  - exact I.
Defined.

(* ================================================================== *)
(** ** How the normaliser composes and fails *)
(* ================================================================== *)

(** X12.  Normalising the category is idempotent: the category that the
    normaliser returns for a string is returned unchanged when it is
    normalised again. *)
Theorem X12_normalisation_is_idempotent
    (result result' : value) (s0 c0 : jsstring) :
  get result (lit "category") = inr (VString s0) ->
  normalizedCategory result = inr (VString c0) ->
  get result' (lit "category") = inr (VString c0) ->
  normalizedCategory result' = inr (VString c0).
Proof.
  intros G N G'.
  assert (Hcase : In c0 validCategories \/
                  forall cat, In cat validCategories ->
                              toLowerCase cat <> toLowerCase c0).
  { unfold normalizedCategory in N. rewrite G in N. simpl in N.
    unfold find_value in N.
    destruct (find _ validCategories) as [cat|] eqn:F.
    - apply find_some in F as [Hin _]. unfold or_else in N.
      rewrite (label_truthy Hin) in N. injection N as <-. now left.
    - unfold or_else in N. simpl in N. injection N as <-. right.
      intros cat Hin Heq. pose proof (find_none _ _ F cat Hin) as Hn.
      simpl in Hn. apply str_eqb_neq in Hn. contradiction. }
  destruct Hcase as [Hin | Hnone].
  - now apply normalizedCategory_label.
  - unfold normalizedCategory. rewrite G'. simpl. unfold find_value.
    destruct (find _ validCategories) as [cat|] eqn:F; [|reflexivity].
    apply find_some in F as [Hin Heq]. simpl in Heq.
    apply str_eqb_eq in Heq. now destruct (Hnone cat Hin).
Qed.

(** X12 at the category [pLaStIc], which normalises to [Plastic]. *)
Lemma X12_normalisation_is_idempotent_witness :
  normalizedCategory (VObject [(lit "category", VString (lit "Plastic"))])
  = inr (VString (lit "Plastic")).
Proof.
  apply (X12_normalisation_is_idempotent
           (VObject [(lit "category", VString (lit "pLaStIc"))])
           (VObject [(lit "category", VString (lit "Plastic"))])
           (s0 := lit "pLaStIc")); reflexivity.
Defined.

(** X13.  On a completion that is a string, the normaliser can only fail
    with a [TypeError], without having logged anything, and only after
    the text it handed to [JSON.parse] was parsed successfully: a
    completion whose parse fails never makes it fail. *)
Theorem X13_normaliser_fails_only_after_a_parse
    (text : jsstring) (t : list event) (err : exception) :
  normalizer (VString text) = (t, inl err) ->
  err = TypeError /\ t = [] /\ exists result, try_parse text = inr result.
Proof.
  assert (TE : forall result e0, respond result = ([], inl e0) -> e0 = TypeError).
  { intros result e0. unfold respond, normalizedCategory, confidence_of, reasoning_of.
    destruct result as [| |b|n|s0|l|p]; simpl; try (intros [= <-]; reflexivity);
      try discriminate.
    destruct (match lookup (lit "category") p with Some x => x | None => VUndefined end)
      as [| |b|n|s0|l|p0]; simpl; try (intros [= <-]; reflexivity).
    all: destruct (ToNumber _) as [e1|m] eqn:T; simpl; try discriminate.
    all: intros [= <-].
    all: unfold ToNumber in T.
    all: destruct (or_else _ _) as [| |b|n|s1|l|p1]; try discriminate.
    all: destruct (to_string_throws _); [|discriminate].
    all: now injection T. }
  unfold normalizer. rewrite parse_block_recovered. unfold recovered.
  destruct (try_parse text) as [e|result] eqn:P; cbn [bind].
  - destruct text as [|c0 text'].
    + vm_compute. discriminate.
    + destruct (respond_fallback (text := c0 :: text')) as (cat & _ & R);
        [discriminate|].
      rewrite R. discriminate.
  - pose proof (respond_trace result) as Ht.
    destruct (respond result) as [t' o'] eqn:R. simpl in Ht. subst t'.
    simpl. intros [= <- ->].
    split; [now apply (TE result) | split; [reflexivity | now exists result]].
Qed.

(** X13 at the completion [null]. *)
Lemma X13_normaliser_fails_only_after_a_parse_witness :
  TypeError = TypeError /\ @nil event = [] /\
  exists result, try_parse (lit "null") = inr result.
Proof.
  apply (X13_normaliser_fails_only_after_a_parse (lit "null") (t := [])).
  vm_compute. reflexivity.
Defined.

Lemma respond_fallback_label (text : jsstring) :
  exists cat,
    In cat validCategories /\
    respond (fallback text)
    = ([], inr (json_response 200
                  (ResultBody (VString cat) (Fin 0.75)
                     (or_else (VString (firstn 200 text))
                        (VString (lit "Classification based on visual analysis")))))).
Proof.
  destruct (foundCategory_spec text) as (cat & Hcat & Hin & _).
  exists cat. split; [exact Hin|].
  assert (C : normalizedCategory (fallback text) = inr (VString cat)).
  { apply normalizedCategory_label; [exact Hin|].
    unfold fallback. rewrite Hcat. reflexivity. }
  unfold respond. rewrite C. reflexivity.
Qed.

(** X14.  A completion whose parse fails always gets a result, never an
    error: the failure is logged once, the category is one of the five
    labels, the confidence is 0.75, and the reasoning is the first 200
    code units of the completion, or the generic sentence when the
    completion is empty. *)
Theorem X14_failed_parse_degrades_to_a_label (text : jsstring) (err : exception) :
  try_parse text = inl err ->
  exists cat reasoning,
    normalizer (VString text)
    = ([ConsoleError (lit "Failed to parse AI response:")],
       inr (json_response 200 (ResultBody (VString cat) (Fin 0.75) reasoning))) /\
    In cat validCategories /\
    (text <> [] -> reasoning = VString (firstn 200 text)) /\
    (text = [] ->
     reasoning = VString (lit "Classification based on visual analysis")).
Proof.
  intros P. destruct (respond_fallback_label text) as (cat & Hin & R).
  exists cat. eexists. split; [|split; [exact Hin|split]].
  - unfold normalizer. rewrite parse_block_recovered, P. unfold recovered.
    cbn [bind]. rewrite R. reflexivity.
  - intros Hne. destruct text; [contradiction | reflexivity].
  - intros ->. reflexivity.
Qed.

(** X14 at the reply of the specification's keyword example. *)
Lemma X14_failed_parse_degrades_to_a_label_witness :
  exists cat reasoning,
    normalizer (VString metal_text)
    = ([ConsoleError (lit "Failed to parse AI response:")],
       inr (json_response 200 (ResultBody (VString cat) (Fin 0.75) reasoning))) /\
    In cat validCategories /\
    (metal_text <> [] -> reasoning = VString (firstn 200 metal_text)) /\
    (metal_text = [] ->
     reasoning = VString (lit "Classification based on visual analysis")).
Proof.
  apply (X14_failed_parse_degrades_to_a_label metal_text (err := SyntaxError)).
  vm_compute. reflexivity.
Defined.

(* ================================================================== *)
(** ** The brace pattern *)
(* ================================================================== *)

(** X15.  What the brace pattern matches: the match, when there is one,
    is exactly the span from the first opening brace of the text to the
    last closing brace after it, and there is no match exactly when no
    opening brace is followed by a closing brace. *)
Theorem X15_brace_pattern (text : jsstring) :
  (forall m, match_braces text = Some m <-> brace_span text m) /\
  (match_braces text = None <-> no_brace_span text).
Proof.
  split.
  - intros m. split; [apply match_braces_some|].
    intros Hspan. destruct (match_braces text) as [m'|] eqn:E.
    + f_equal. apply match_braces_some in E.
      exact (brace_span_unique E Hspan).
    + apply match_braces_none in E.
      destruct (brace_span_excludes Hspan E).
  - split; [apply match_braces_none|].
    intros Hno. destruct (match_braces text) as [m|] eqn:E; [|reflexivity].
    apply match_braces_some in E.
    destruct (brace_span_excludes E Hno).
Qed.

(* ================================================================== *)
(** ** The result card and the upload component *)
(* ================================================================== *)

Import ResultCard WasteClassifier.

Lemma own_some {A} (table : list (jsstring * A)) (key : jsstring) (a : A) :
  own table key = Some a -> In key (map fst table).
Proof.
  induction table as [|[k x] table IH]; simpl; [discriminate|].
  destruct (str_eqb key k) eqn:E.
  - apply str_eqb_eq in E. subst. now left.
  - intros H. right. now apply IH.
Qed.

Lemma own_none {A} (table : list (jsstring * A)) (key : jsstring) :
  own table key = None -> ~ In key (map fst table).
Proof.
  induction table as [|[k x] table IH]; simpl; [intros _ []|].
  destruct (str_eqb key k) eqn:E; [discriminate|].
  apply str_eqb_neq in E. intros H [Hk | Hin]; [congruence | now apply IH].
Qed.

Lemma inherited_name (key : jsstring) :
  existsb (str_eqb key) Object_prototype = true <-> In key Object_prototype.
Proof.
  rewrite existsb_exists. split.
  - intros (x & Hin & E). apply str_eqb_eq in E. now subst.
  - intros Hin. exists key. split; [exact Hin | now apply str_eqb_eq].
Qed.

(** X16.  How the card presents a category, for every string: a label of
    the handler's closed set has its own entry, with its own colours, and
    its own tip; a name that object literals inherit (such as [toString])
    finds the inherited value in both tables, so no styling and no tip
    text; every other string is given the styling of [Plastic] and the
    generic tip. *)
Theorem X16_card_for_every_category (category : jsstring) :
  ( In category validCategories /\
    exists cfg tip,
      config_for category = Own cfg /\
      color cfg = lit "waste-" ++ toLowerCase category /\
      bgColor cfg = lit "bg-" ++ color cfg ++ lit "/10" /\
      borderColor cfg = lit "border-" ++ color cfg /\
      getDisposalTip category = Own tip /\ tip <> default_tip )
  \/
  ( ~ In category validCategories /\ In category Object_prototype /\
    config_for category = Inherited /\ getDisposalTip category = Inherited )
  \/
  ( ~ In category validCategories /\ ~ In category Object_prototype /\
    config_for category = config_for (lit "Plastic") /\
    getDisposalTip category = Own default_tip ).
Proof.
  destruct (in_dec (list_eq_dec N.eq_dec) category validCategories) as [Hin | Hout].
  - left. split; [exact Hin|].
    each_label Hin; (do 2 eexists; repeat split; try reflexivity;
                     intros E; vm_compute in E; discriminate E).
  - right.
    assert (C : own categoryConfig category = None).
    { destruct (own categoryConfig category) eqn:E; [|reflexivity].
      apply own_some in E. contradiction. }
    assert (T : own tips category = None).
    { destruct (own tips category) eqn:E; [|reflexivity].
      apply own_some in E. contradiction. }
    unfold config_for, getDisposalTip, member. rewrite C, T.
    destruct (existsb (str_eqb category) Object_prototype) eqn:E.
    + left. apply inherited_name in E. auto.
    + right. repeat split; try assumption.
      intros Hin. apply inherited_name in Hin. congruence.
Qed.

(** X17.  However the call of the edge function ends, [classifyImage]
    leaves the component not loading, with its preview and its dragging
    flag untouched; it has called the function once and raised exactly
    one toast; and the earlier result is always discarded: the new result
    is the data of the reply when the call reports no error and the data
    has no truthy [error] field, and there is none otherwise. *)
Theorem X17_classify_image_outcome
    (st : state) (file : File) (invoked : outcome reply) :
  let st' := fst (classifyImage st file invoked) in
  let effects := snd (classifyImage st file invoked) in
  isLoading st' = false /\
  image st' = image st /\ isDragging st' = isDragging st /\
  invocations effects = [Invoke (lit "classify-waste") [(lit "image", FieldFile file)]] /\
  List.length (toasts effects) = 1%nat /\
  ( (exists d message,
       invoked = inr {| data := d; error := None |} /\
       get d (lit "error") = inr message /\ truthy message = false /\
       result st' = Some d)
    \/
    ( result st' = None /\
      ~ exists d message,
          invoked = inr {| data := d; error := None |} /\
          get d (lit "error") = inr message /\ truthy message = false ) ).
Proof.
  unfold classifyImage, classify_try.
  destruct invoked as [e | [d [e|]]].
  - do 5 (split; [reflexivity|]). right. split; [reflexivity|].
    intros (d & m & H & _). discriminate H.
  - do 5 (split; [reflexivity|]). right. split; [reflexivity|].
    intros (d' & m & H & _). discriminate H.
  - destruct (get d (lit "error")) as [e|message] eqn:G.
    + do 5 (split; [reflexivity|]). right. split; [reflexivity|].
      intros (d' & m & H & G' & _). injection H as <-. congruence.
    + destruct (truthy message) eqn:T.
      * do 5 (split; [reflexivity|]). right. split; [reflexivity|].
        intros (d' & m & H & G' & T'). injection H as <-. congruence.
      * destruct (description_throws d);
          (do 5 (split; [reflexivity|]); left; exists d, message;
           repeat split; assumption).
Qed.

(** X18.  The gate of [handleFile]: a file whose type begins with
    [image/] and that has at most 10 MiB is read for the preview and sent
    to the edge function in the field [image]; any other file changes
    nothing in the component, is not sent, and raises one error toast. *)
Theorem X18_upload_gate (st : state) (file : File) (invoked : outcome reply) :
  ( accepted file ->
    exists rest,
      snd (handleFile st (Some file) invoked)
      = ReadAsDataURL file
        :: Invoke (lit "classify-waste") [(lit "image", FieldFile file)]
        :: rest ) /\
  ( ~ accepted file ->
    fst (handleFile st (Some file) invoked) = st /\
    invocations (snd (handleFile st (Some file) invoked)) = [] /\
    exists title description,
      snd (handleFile st (Some file) invoked) = [ToastError title description] ).
Proof.
  unfold accepted, handleFile.
  destruct (startsWith (file_type file) (lit "image/")) eqn:P; cbn [negb].
  - apply startsWith_prefix in P.
    destruct (10 * 1024 * 1024 <? size file)%N eqn:L.
    + apply N.ltb_lt in L. split.
      * intros [_ Hs]. apply N.lt_nge in L. exfalso. apply L. exact Hs.
      * intros _. split; [reflexivity|]. split; [reflexivity|].
        do 2 eexists. reflexivity.
    + apply N.ltb_ge in L. split.
      * intros _. unfold classifyImage, classify_try.
        destruct invoked as [e | [d [e|]]];
          [eexists; reflexivity | eexists; reflexivity |].
        destruct (get d (lit "error")) as [e|message]; [eexists; reflexivity|].
        destruct (truthy message); [eexists; reflexivity|].
        destruct (description_throws d); eexists; reflexivity.
      * intros H. exfalso. apply H. split; [exact P | exact L].
  - split.
    + intros [Hp _]. apply startsWith_prefix in Hp. congruence.
    + intros _. split; [reflexivity|]. split; [reflexivity|].
      do 2 eexists. reflexivity.
Qed.

(** X18 at a small PNG, which is sent, and at a PDF, which is not. *)
Lemma X18_upload_gate_witness :
  (exists rest,
     snd (handleFile initial (Some png) (inl NetworkError))
     = ReadAsDataURL png
       :: Invoke (lit "classify-waste") [(lit "image", FieldFile png)]
       :: rest) /\
  fst (handleFile initial (Some pdf) (inl NetworkError)) = initial.
Proof.
  split.
  - apply (proj1 (X18_upload_gate initial png (inl NetworkError))).
    split; [exists (lit "png"); reflexivity | vm_compute; discriminate].
  - apply (proj2 (X18_upload_gate initial pdf (inl NetworkError))).
    intros [[rest H] _]. vm_compute in H. discriminate H.
Defined.

Lemma classifyImage_calls (st : state) (file : File) (invoked : outcome reply) :
  invocations (snd (classifyImage st file invoked))
  = [Invoke (lit "classify-waste") [(lit "image", FieldFile file)]].
Proof.
  unfold classifyImage, classify_try.
  destruct invoked as [e | [d [e|]]]; [reflexivity ..|].
  destruct (get d (lit "error")) as [e|message]; [reflexivity|].
  destruct (truthy message); [reflexivity|].
  destruct (description_throws d); reflexivity.
Qed.

Lemma with_image_and_key
    (w : world) (k : jsstring) (fd : list (jsstring * form_entry)) (f : File) :
  req_method w <> lit "OPTIONS" ->
  env_LOVABLE_API_KEY w = Some k -> k <> [] ->
  req_formData w = inr fd ->
  form_get (lit "image") fd = Some (FieldFile f) ->
  status (snd (handler w)) <> 400%N /\
  fetches (fst (handler w)) = [Fetch k f].
Proof.
  intros Pm Pk Pne Pfd Pget.
  handler_paths w.
  all: try (apply str_eqb_eq in Hmethod; contradiction).
  all: settle_eqs.
  all: try (split; [discriminate | reflexivity]).
  all: destruct (normalizer_inv _ Hnorm) as (Hf & Hr).
  all: cbn [fetches filter app]; fold (fetches t);
       fold (fetches (t ++ [ConsoleError (lit "Error in classify-waste function:")])).
  - split; [discriminate|]. rewrite fetches_app_left by assumption. reflexivity.
  - destruct (Hr resp eq_refl) as (result & cat & n & re & _ & _ & _ & ->).
    split; [discriminate | now rewrite Hf].
Qed.

(** X19.  The component and the handler agree on the form: the body that
    [classifyImage] sends holds the file in the field that the handler
    reads, so a request carrying that body, with the key configured, is
    never answered 400 and leads to exactly one call of the model
    endpoint, with that file. *)
Theorem X19_component_form_reaches_the_model
    (st : state) (file : File) (invoked : outcome reply)
    (name : jsstring) (body0 : list (jsstring * form_entry))
    (w : world) (k : jsstring) :
  In (Invoke name body0) (snd (classifyImage st file invoked)) ->
  req_method w <> lit "OPTIONS" ->
  env_LOVABLE_API_KEY w = Some k -> k <> [] ->
  req_formData w = inr body0 ->
  status (snd (handler w)) <> 400%N /\
  fetches (fst (handler w)) = [Fetch k file].
Proof.
  intros Hinv Pm Pk Pne Pfd.
  assert (B : body0 = [(lit "image", FieldFile file)]).
  { assert (Hin : In (Invoke name body0)
                     (invocations (snd (classifyImage st file invoked)))).
    { unfold invocations. apply filter_In. split; [exact Hinv | reflexivity]. }
    rewrite classifyImage_calls in Hin.
    destruct Hin as [E | []]. now injection E. }
  subst body0.
  apply (with_image_and_key w Pm Pk Pne Pfd). reflexivity.
Qed.

(** X19 at a small PNG and a request whose model endpoint answers 503. *)
Lemma X19_component_form_reaches_the_model_witness :
  status (snd (handler (refused 503))) <> 400%N /\
  fetches (fst (handler (refused 503))) = [Fetch (lit "secret") png].
Proof.
  assert (Hm : req_method (refused 503) <> lit "OPTIONS")
    by (intros H; vm_compute in H; discriminate H).
  assert (Hne : lit "secret" <> []) by discriminate.
  apply (X19_component_form_reaches_the_model
           initial png (inl NetworkError) (lit "classify-waste")
           (body0 := [(lit "image", FieldFile png)])
           (refused 503) (k := lit "secret")).
  - left. reflexivity.
  - exact Hm.
  - reflexivity.
  - exact Hne.
  - reflexivity.
Defined.

(* ================================================================== *)
(** ** An object amid prose *)
(* ================================================================== *)

Import JSON Grammar.

Ltac bits c :=
  destruct c as [|c]; [|do 7 (try (destruct c as [c|c|]))].

Lemma lex_string_plain (c : code_unit) (rest : jsstring) :
  c <> 34%N -> c <> 92%N ->
  lex_string (c :: rest) = if (c <? 32)%N then None else push c 1 (lex_string rest).
Proof.
  intros H1 H2. bits c; try reflexivity; try congruence.
Qed.

Lemma lex_string_escape (e : code_unit) (rest : jsstring) :
  lex_string (92%N :: e :: rest) =
    if ((e =? 34) || (e =? 92) || (e =? 47))%N then push e 2 (lex_string rest)
    else if (e =? 98)%N then push 8%N 2 (lex_string rest)
    else if (e =? 102)%N then push 12%N 2 (lex_string rest)
    else if (e =? 110)%N then push 10%N 2 (lex_string rest)
    else if (e =? 114)%N then push 13%N 2 (lex_string rest)
    else if (e =? 116)%N then push 9%N 2 (lex_string rest)
    else if (e =? 117)%N then
      match rest with
      | a :: b :: c :: d :: rest' =>
          match hex4 a b c d with
          | Some u => push u 6 (lex_string rest')
          | None => None
          end
      | _ => None
      end
    else None.
Proof.
  bits e; reflexivity.
Qed.

Lemma lex_number_cons (c : code_unit) (r : jsstring) :
  lex_number (c :: r) =
    if (c =? 45)%N then number_body true (c :: r) r
    else number_body false (c :: r) (c :: r).
Proof. bits c; reflexivity. Qed.

Lemma exp_sign_cons (x : code_unit) (r : jsstring) :
  exp_sign (x :: r) =
    if (x =? 43)%N then (false, r)
    else if (x =? 45)%N then (true, r) else (false, x :: r).
Proof. bits x; reflexivity. Qed.

Lemma frac_part_cons (x : code_unit) (r : jsstring) :
  frac_part (x :: r) =
    if (x =? 46)%N then
      match span_digits r with
      | ([], _) => ([], x :: r)
      | p => p
      end
    else ([], x :: r).
Proof. bits x; reflexivity. Qed.

Lemma exponent_part_eq (s : jsstring) :
  exponent_part s =
    match s with
    | c :: rest =>
        if ((c =? 101) || (c =? 69))%N then
          let (negative, rest') := exp_sign rest in
          match span_digits rest' with
          | ([], _) => (0%Z, s)
          | (ds, tl) =>
              ((if negative then - digits_value ds else digits_value ds)%Z, tl)
          end
        else (0%Z, s)
    | [] => (0%Z, s)
    end.
Proof. destruct s; reflexivity. Qed.

Lemma space_cases (c : code_unit) :
  json_space c = true -> c = 32%N \/ c = 9%N \/ c = 10%N \/ c = 13%N.
Proof.
  unfold json_space. rewrite !orb_true_iff, !N.eqb_eq. tauto.
Qed.

Lemma span_digits_spaces (ws : jsstring) : spaces ws -> span_digits ws = ([], ws).
Proof.
  intros H. destruct H as [|c ws Hc _]; [reflexivity|].
  apply space_cases in Hc. destruct Hc as [-> | [-> | [-> | ->]]]; reflexivity.
Qed.

Lemma span_digits_trailing (r ws : jsstring) :
  spaces ws ->
  span_digits (r ++ ws) = (fst (span_digits r), snd (span_digits r) ++ ws).
Proof.
  intros H. induction r as [|c r IH]; simpl.
  - now apply span_digits_spaces.
  - destruct (is_digit c); [|reflexivity].
    rewrite IH. now destruct (span_digits r).
Qed.

Lemma exp_sign_spaces (ws : jsstring) : spaces ws -> exp_sign ws = (false, ws).
Proof.
  intros H. destruct H as [|c ws Hc _]; [reflexivity|].
  apply space_cases in Hc. destruct Hc as [-> | [-> | [-> | ->]]]; reflexivity.
Qed.

Lemma exp_sign_trailing (r ws : jsstring) :
  spaces ws ->
  exp_sign (r ++ ws) = (fst (exp_sign r), snd (exp_sign r) ++ ws).
Proof.
  intros H. destruct r as [|x r]; [now apply exp_sign_spaces|].
  rewrite <- app_comm_cons, !exp_sign_cons.
  destruct (x =? 43)%N; [reflexivity|]. destruct (x =? 45)%N; reflexivity.
Qed.

Lemma exponent_part_spaces (ws : jsstring) :
  spaces ws -> exponent_part ws = (0%Z, ws).
Proof.
  intros H. destruct H as [|c ws Hc _]; [reflexivity|].
  apply space_cases in Hc. destruct Hc as [-> | [-> | [-> | ->]]]; reflexivity.
Qed.

Lemma exponent_part_trailing (r ws : jsstring) :
  spaces ws ->
  exponent_part (r ++ ws) = (fst (exponent_part r), snd (exponent_part r) ++ ws).
Proof.
  intros H. destruct r as [|c rest]; [now apply exponent_part_spaces|].
  rewrite <- app_comm_cons, !exponent_part_eq.
  - destruct ((c =? 101) || (c =? 69))%N; [|reflexivity].
    rewrite (exp_sign_trailing rest H).
    destruct (exp_sign rest) as [negative rest']. simpl fst. simpl snd.
    rewrite (span_digits_trailing rest' H).
    destruct (span_digits rest') as [[|d ds] tl]; reflexivity.
Qed.

Lemma frac_part_spaces (ws : jsstring) : spaces ws -> frac_part ws = ([], ws).
Proof.
  intros H. destruct H as [|c ws Hc _]; [reflexivity|].
  apply space_cases in Hc. destruct Hc as [-> | [-> | [-> | ->]]]; reflexivity.
Qed.

Lemma frac_part_trailing (r ws : jsstring) :
  spaces ws ->
  frac_part (r ++ ws) = (fst (frac_part r), snd (frac_part r) ++ ws).
Proof.
  intros H. destruct r as [|x r]; [now apply frac_part_spaces|].
  rewrite <- app_comm_cons, !frac_part_cons.
  - destruct (x =? 46)%N; [|reflexivity].
    rewrite (span_digits_trailing r H).
    destruct (span_digits r) as [[|d ds] tl]; reflexivity.
Qed.

Lemma number_body_trailing (negative : bool) (s s1 ws : jsstring) :
  spaces ws ->
  number_body negative (s ++ ws) (s1 ++ ws) = number_body negative s s1.
Proof.
  intros H. unfold number_body.
  rewrite (span_digits_trailing s1 H).
  destruct (span_digits s1) as [int_digits s2]. simpl fst. simpl snd.
  rewrite (frac_part_trailing s2 H).
  destruct (frac_part s2) as [frac_digits s3]. simpl fst. simpl snd.
  rewrite (exponent_part_trailing s3 H).
  destruct (exponent_part s3) as [e s4]. simpl fst. simpl snd.
  rewrite !length_app.
  replace (List.length s + List.length ws - (List.length s4 + List.length ws))%nat
    with (List.length s - List.length s4)%nat by lia.
  reflexivity.
Qed.

Lemma lex_number_trailing (c : code_unit) (r ws : jsstring) :
  spaces ws -> lex_number (c :: r ++ ws) = lex_number (c :: r).
Proof.
  intros H. rewrite !lex_number_cons. rewrite !app_comm_cons.
  rewrite (number_body_trailing true (c :: r) r H).
  rewrite (number_body_trailing false (c :: r) (c :: r) H).
  reflexivity.
Qed.

Lemma lex_string_spaces (ws : jsstring) : spaces ws -> lex_string ws = None.
Proof.
  induction 1 as [|c ws Hc _ IH]; [reflexivity|].
  apply space_cases in Hc.
  destruct Hc as [-> | [-> | [-> | ->]]]; try reflexivity.
  simpl. now rewrite IH.
Qed.

Lemma hex_digit_space (c : code_unit) : json_space c = true -> hex_digit c = None.
Proof.
  intros H. apply space_cases in H.
  destruct H as [-> | [-> | [-> | ->]]]; reflexivity.
Qed.

Lemma lex_string_trailing (r ws : jsstring) (str : jsstring) (n : nat) :
  spaces ws ->
  lex_string (r ++ ws) = Some (str, n) -> lex_string r = Some (str, n).
Proof.
  intros H. revert str n.
  assert (P : forall fuel r, (List.length r <= fuel)%nat ->
            forall str n, lex_string (r ++ ws) = Some (str, n) ->
                          lex_string r = Some (str, n)).
  { induction fuel as [|fuel IH]; intros r0 L str n.
    - destruct r0; [|simpl in L; lia]. simpl. now rewrite lex_string_spaces.
    - destruct r0 as [|c r0]; [simpl; now rewrite lex_string_spaces|].
      simpl in L. simpl app.
      destruct (N.eq_dec c 34) as [->|N34]; [tauto|].
      destruct (N.eq_dec c 92) as [->|N92].
      + destruct r0 as [|e r0].
        * simpl app. destruct H as [|x ws Hx Hws]; [discriminate|].
          rewrite lex_string_escape.
          apply space_cases in Hx.
          destruct Hx as [-> | [-> | [-> | ->]]]; discriminate.
        * simpl app. rewrite !lex_string_escape. simpl in L.
          assert (Q : forall a k, push a k (lex_string (r0 ++ ws)) = Some (str, n) ->
                                  push a k (lex_string r0) = Some (str, n)).
          { intros a k. unfold push.
            destruct (lex_string (r0 ++ ws)) as [[s1 k1]|] eqn:E; [|discriminate].
            rewrite (IH r0 ltac:(lia) _ _ E). tauto. }
          destruct ((e =? 34) || (e =? 92) || (e =? 47))%N; [apply Q|].
          destruct (e =? 98)%N; [apply Q|].
          destruct (e =? 102)%N; [apply Q|].
          destruct (e =? 110)%N; [apply Q|].
          destruct (e =? 114)%N; [apply Q|].
          destruct (e =? 116)%N; [apply Q|].
          destruct (e =? 117)%N; [|tauto].
          assert (S4 : forall l, (List.length l < 4)%nat ->
                    match l ++ ws with
                    | a :: b :: c0 :: d :: rest' =>
                        match hex4 a b c0 d with
                        | Some u => push u 6 (lex_string rest')
                        | None => None
                        end
                    | _ => None
                    end = None).
          { intros l Hl.
            assert (HS : forall x, In x ws -> hex_digit x = None).
            { intros x Hx. apply hex_digit_space.
              unfold spaces in H. rewrite Forall_forall in H. now apply H. }
            destruct l as [|a [|b [|c0 [|d l]]]]; simpl in Hl; try lia; simpl app.
            - destruct ws as [|a [|b [|c0 [|d ws']]]]; try reflexivity.
              unfold hex4. rewrite (HS a) by (simpl; auto). reflexivity.
            - destruct ws as [|b [|c0 [|d ws']]]; try reflexivity.
              unfold hex4. rewrite (HS b) by (simpl; auto).
              destruct (hex_digit a); reflexivity.
            - destruct ws as [|c0 [|d ws']]; try reflexivity.
              unfold hex4. rewrite (HS c0) by (simpl; auto).
              destruct (hex_digit a), (hex_digit b); reflexivity.
            - destruct ws as [|d ws']; try reflexivity.
              unfold hex4. rewrite (HS d) by (simpl; auto).
              destruct (hex_digit a), (hex_digit b), (hex_digit c0); reflexivity. }
          destruct r0 as [|a [|b [|c0 [|d r1]]]].
          1-4: rewrite S4 by (simpl; lia); discriminate.
          cbn [app]. destruct (hex4 a b c0 d); [|discriminate].
          unfold push.
          destruct (lex_string (r1 ++ ws)) as [[s1 k1]|] eqn:E; [|discriminate].
          simpl in L. rewrite (IH r1 ltac:(lia) _ _ E). tauto.
      + rewrite !lex_string_plain by assumption.
        destruct (c <? 32)%N; [tauto|]. unfold push.
        destruct (lex_string (r0 ++ ws)) as [[s1 k1]|] eqn:E; [|discriminate].
        rewrite (IH r0 ltac:(lia) _ _ E). tauto. }
  intros str n. apply (P (List.length r) r). lia.
Qed.

Lemma startsWith_trailing (p r ws : jsstring) :
  spaces ws -> Forall (fun c => json_space c = false) p ->
  startsWith (r ++ ws) p = startsWith r p.
Proof.
  intros H Hp. revert r. induction Hp as [|a p Ha _ IH]; intros r; [reflexivity|].
  destruct r as [|b r].
  - simpl. destruct H as [|b ws Hb _]; [reflexivity|].
    destruct (a =? b)%N eqn:E; [|reflexivity].
    apply N.eqb_eq in E. subst b. congruence.
  - simpl. now rewrite IH.
Qed.

Lemma lex_token_space (c : code_unit) (rest : jsstring) :
  json_space c = true -> lex_token (c :: rest) = Some (None, 1%nat).
Proof.
  intros H. unfold lex_token. unfold json_space in H. now rewrite H.
Qed.

(** The if-chain of [lex_token], one case at a time. *)
Ltac lex_token_cases c :=
  unfold lex_token;
  destruct ((c =? 32) || (c =? 9) || (c =? 10) || (c =? 13))%N eqn:Hspace;
  [ | destruct (c =? 123)%N eqn:H123;
      [ | destruct (c =? 125)%N eqn:H125;
          [ | destruct (c =? 91)%N eqn:H91;
              [ | destruct (c =? 93)%N eqn:H93;
                  [ | destruct (c =? 58)%N eqn:H58;
                      [ | destruct (c =? 44)%N eqn:H44;
                          [ | destruct (c =? 34)%N eqn:H34 ] ] ] ] ] ] ].

Lemma lex_token_trailing (c : code_unit) (r ws : jsstring)
    (tok : option token) (n : nat) :
  spaces ws ->
  lex_token (c :: r ++ ws) = Some (tok, n) -> lex_token (c :: r) = Some (tok, n).
Proof.
  intros H. lex_token_cases c; try tauto.
  - destruct (lex_string (r ++ ws)) as [[str k]|] eqn:E; [|discriminate].
    now rewrite (lex_string_trailing r H E).
  - rewrite !app_comm_cons.
    rewrite !(startsWith_trailing (c :: r) H) by (repeat constructor).
    rewrite <- !app_comm_cons. rewrite (lex_number_trailing c r H). tauto.
Qed.

Lemma lex_token_none (c : code_unit) (rest : jsstring) (n : nat) :
  lex_token (c :: rest) = Some (None, n) -> json_space c = true /\ n = 1%nat.
Proof.
  lex_token_cases c; try discriminate.
  - intros [= <-]. split; [exact Hspace | reflexivity].
  - destruct (lex_string rest) as [[str k]|]; discriminate.
  - destruct (startsWith _ _); [discriminate|].
    destruct (startsWith _ _); [discriminate|].
    destruct (startsWith _ _); [discriminate|].
    destruct (lex_number _) as [[m k]|]; discriminate.
Qed.

Lemma lex_token_some (c : code_unit) (rest : jsstring) (t : token) (n : nat) :
  lex_token (c :: rest) = Some (Some t, n) ->
  token_ok t /\
  (t = TLBrace -> c = 123%N /\ n = 1%nat) /\
  (t = TRBrace -> c = 125%N /\ n = 1%nat).
Proof.
  assert (Done : forall v k,
            token_ok (TScalar v) ->
            token_ok (TScalar v) /\
            (TScalar v = TLBrace -> c = 123%N /\ k = 1%nat) /\
            (TScalar v = TRBrace -> c = 125%N /\ k = 1%nat)).
  { intros v k Hv. split; [exact Hv|]. split; intros E; discriminate E. }
  lex_token_cases c; try discriminate.
  1-6: intros [= <- <-]; (split; [exact I|]); split; intros E;
       try discriminate E; (split; [now apply N.eqb_eq | reflexivity]).
  - destruct (lex_string rest) as [[str k]|]; [|discriminate].
    intros [= <- <-]. now apply Done.
  - destruct (startsWith _ _); [intros [= <- <-]; now apply Done|].
    destruct (startsWith _ _); [intros [= <- <-]; now apply Done|].
    destruct (startsWith _ _); [intros [= <- <-]; now apply Done|].
    destruct (lex_number _) as [[m k]|]; [|discriminate].
    intros [= <- <-]. now apply Done.
Qed.

Lemma tokenize_leading (ws s : jsstring) :
  spaces ws -> tokenize 0 (ws ++ s) = tokenize 0 s.
Proof.
  induction 1 as [|c ws Hc _ IH]; [reflexivity|].
  rewrite <- app_comm_cons.
  change (tokenize 0 (c :: ws ++ s))
    with (match lex_token (c :: ws ++ s) with
          | None => None
          | Some (tok, n) =>
              match tokenize (pred n) (ws ++ s), tok with
              | Some toks, Some t => Some (t :: toks)
              | Some toks, None => Some toks
              | None, _ => None
              end
          end).
  rewrite lex_token_space by exact Hc. simpl pred. rewrite IH.
  now destruct (tokenize 0 s).
Qed.

Lemma tokenize_spaces (ws : jsstring) :
  spaces ws -> forall k, tokenize k ws = Some [].
Proof.
  induction 1 as [|c ws Hc _ IH]; intros k; [now destruct k|].
  destruct k as [|k]; [|apply IH].
  change (tokenize 0 (c :: ws))
    with (match lex_token (c :: ws) with
          | None => None
          | Some (tok, n) =>
              match tokenize (pred n) ws, tok with
              | Some toks, Some t => Some (t :: toks)
              | Some toks, None => Some toks
              | None, _ => None
              end
          end).
  rewrite lex_token_space by exact Hc. simpl pred. now rewrite IH.
Qed.

Lemma tokenize_cons (c : code_unit) (s : jsstring) :
  tokenize 0 (c :: s) =
    match lex_token (c :: s) with
    | None => None
    | Some (tok, n) =>
        match tokenize (pred n) s, tok with
        | Some toks, Some t => Some (t :: toks)
        | Some toks, None => Some toks
        | None, _ => None
        end
    end.
Proof. reflexivity. Qed.

Lemma tokenize_trailing (s ws : jsstring) :
  spaces ws ->
  forall k toks, tokenize k (s ++ ws) = Some toks -> tokenize k s = Some toks.
Proof.
  intros H. induction s as [|c s IH]; intros k toks.
  - simpl app. rewrite (tokenize_spaces H). intros [= <-]. now destruct k.
  - rewrite <- app_comm_cons. destruct k as [|k]; [|apply IH].
    rewrite !tokenize_cons.
    destruct (lex_token (c :: s ++ ws)) as [[tok n]|] eqn:E; [|discriminate].
    rewrite (lex_token_trailing c s H E).
    destruct (tokenize (pred n) (s ++ ws)) as [toks1|] eqn:T; [|discriminate].
    now rewrite (IH _ _ T).
Qed.

Lemma tokenize_first (s : jsstring) (t : token) (toks : list token) :
  tokenize 0 s = Some (t :: toks) ->
  exists ws c rest n,
    s = ws ++ c :: rest /\ spaces ws /\
    lex_token (c :: rest) = Some (Some t, n) /\
    tokenize (pred n) rest = Some toks.
Proof.
  induction s as [|c s IH]; [discriminate|].
  rewrite tokenize_cons.
  destruct (lex_token (c :: s)) as [[tok n]|] eqn:E; [|discriminate].
  destruct (tokenize (pred n) s) as [toks1|] eqn:T; [|discriminate].
  destruct tok as [t'|].
  - intros [= -> ->]. exists [], c, s, n. repeat split; try assumption. constructor.
  - intros [= ->]. destruct (lex_token_none _ _ E) as [Hc ->].
    destruct (IH T) as (ws & c' & rest & n' & -> & Hws & Hlex & Htok).
    exists (c :: ws), c', rest, n'. repeat split; try assumption.
    now constructor.
Qed.

Lemma tokenize_nothing (s : jsstring) : tokenize 0 s = Some [] -> spaces s.
Proof.
  induction s as [|c s IH]; [constructor|].
  rewrite tokenize_cons.
  destruct (lex_token (c :: s)) as [[tok n]|] eqn:E; [|discriminate].
  destruct (tokenize (pred n) s) as [toks1|] eqn:T; [|discriminate].
  destruct tok as [t'|]; [discriminate|].
  intros [= ->]. destruct (lex_token_none _ _ E) as [Hc ->].
  constructor; [exact Hc | now apply IH].
Qed.

Lemma tokenize_last (s : jsstring) :
  forall k toks toks',
    tokenize k s = Some toks -> toks = toks' ++ [TRBrace] ->
    exists pre ws, s = pre ++ 125%N :: ws /\ spaces ws.
Proof.
  induction s as [|c s IH]; intros k toks toks'.
  - destruct k; intros [= <-] E; destruct toks'; discriminate E.
  - destruct k as [|k].
    + rewrite tokenize_cons.
      destruct (lex_token (c :: s)) as [[tok n]|] eqn:E; [|discriminate].
      destruct (tokenize (pred n) s) as [toks1|] eqn:T; [|discriminate].
      assert (Rec : forall l, toks1 = l ++ [TRBrace] ->
                exists pre ws, c :: s = pre ++ 125%N :: ws /\ spaces ws).
      { intros l El. destruct (IH _ _ _ T El) as (pre & ws & -> & Hws).
        now exists (c :: pre), ws. }
      destruct tok as [t'|].
      * intros [= <-] El. destruct toks' as [|x toks'].
        -- injection El as -> El. 
           destruct (lex_token_some _ _ E) as (_ & _ & Hr).
           destruct (Hr eq_refl) as [-> ->]. simpl in T.
           exists [], s. split; [reflexivity|]. apply tokenize_nothing.
           now rewrite T, El.
        -- injection El as _ El. now apply (Rec toks').
      * intros [= <-] El. now apply (Rec toks').
    + intros T El. destruct (IH _ _ _ T El) as (pre & ws & -> & Hws).
      now exists (c :: pre), ws.
Qed.

Lemma tokenize_ok (s : jsstring) :
  forall k toks, tokenize k s = Some toks -> Forall token_ok toks.
Proof.
  induction s as [|c s IH]; intros k toks.
  - destruct k; intros [= <-]; constructor.
  - destruct k as [|k]; [|apply IH].
    rewrite tokenize_cons.
    destruct (lex_token (c :: s)) as [[tok n]|] eqn:E; [|discriminate].
    destruct (tokenize (pred n) s) as [toks1|] eqn:T; [|discriminate].
    destruct tok as [t'|]; intros [= <-].
    + constructor; [apply (lex_token_some _ _ E) | now apply (IH _ _ T)].
    + now apply (IH _ _ T).
Qed.

Lemma bottom_array_push (f : frame) (s : list frame) :
  bottom_array s = true -> bottom_array (f :: s) = true.
Proof. destruct s; [discriminate | tauto]. Qed.

Lemma bottom_array_pop (f : frame) (s : list frame) :
  bottom_array (f :: s) = true ->
  match s with
  | [] => exists elems, f = InArray elems
  | _ :: _ => bottom_array s = true
  end.
Proof.
  destruct s; [|tauto]. destruct f; [eauto | discriminate].
Qed.

Lemma step_arrayish (st st' : pstate) (t : token) :
  arrayish st -> step st t = Some st' -> arrayish st'.
Proof.
  destruct st as [s|s|s|props s|props k s|v s]; simpl.
  - intros B. destruct t; simpl; try discriminate; intros [= <-]; simpl; auto.
    destruct s; [discriminate | exact B].
  - intros B.
    assert (P : bottom_array (InArray [] :: s) = true).
    { destruct B as [-> | B]; [reflexivity | now apply bottom_array_push]. }
    destruct t; simpl; try discriminate; intros [= <-]; simpl; auto.
    destruct B as [-> | B]; [now exists [] | destruct s; [discriminate | exact B]].
  - intros B. destruct t as [| | | | | |v0]; try discriminate.
    + intros [= <-]. simpl. destruct s; [discriminate | exact B].
    + destruct v0; try discriminate. intros [= <-]. exact B.
  - intros B. destruct t as [| | | | | |v0]; try discriminate.
    destruct v0; try discriminate. intros [= <-]. exact B.
  - intros B. destruct t; try discriminate. intros [= <-].
    simpl. destruct s; [discriminate B | exact B].
  - destruct s as [|[elems|props k] s]; [discriminate| |]; intros B.
    + destruct t; try discriminate; intros [= <-]; simpl.
      * destruct s; [now eexists | exact B].
      * destruct s; [reflexivity | exact B].
    + pose proof (bottom_array_pop _ _ B) as P.
      destruct s as [|f s]; [destruct P as [elems P]; discriminate P|].
      destruct t; try discriminate; intros [= <-]; simpl; exact P.
Qed.

Lemma run_arrayish (toks : list token) :
  forall st v, arrayish st -> run st toks = Some (After v []) ->
               exists l, v = VArray l.
Proof.
  induction toks as [|t toks IH]; intros st v A; simpl.
  - intros [= ->]. exact A.
  - destruct (step st t) as [st'|] eqn:E; [|discriminate].
    apply IH. now apply (step_arrayish st t).
Qed.

Lemma run_snoc (toks : list token) (t : token) :
  forall st,
    run st (toks ++ [t]) =
    match run st toks with
    | Some st' => step st' t
    | None => None
    end.
Proof.
  induction toks as [|x toks IH]; intros st; simpl.
  - now destruct (step st t).
  - destruct (step st x); [apply IH | reflexivity].
Qed.

Lemma step_closes_object (st : pstate) (t : token) (p : list (jsstring * value)) :
  token_ok t -> step st t = Some (After (VObject p) []) -> t = TRBrace.
Proof.
  intros Ok.
  destruct st as [s|s|s|props s|props k s|v s]; simpl.
  - destruct t as [| | | | | |v0]; simpl; try discriminate.
    intros [= -> _]. destruct Ok.
  - destruct t as [| | | | | |v0]; simpl; try discriminate.
  - destruct t as [| | | | | |v0]; try discriminate; [reflexivity|].
    destruct v0; discriminate.
  - destruct t as [| | | | | |v0]; try discriminate. destruct v0; discriminate.
  - destruct t; discriminate.
  - destruct s as [|[elems|props k] s]; [discriminate| |];
      destruct t; try discriminate; reflexivity.
Qed.

Lemma run_opens_object (t : token) (toks : list token) (p : list (jsstring * value)) :
  token_ok t ->
  run (ExpectValue []) (t :: toks) = Some (After (VObject p) []) ->
  t = TLBrace /\ run (ExpectKeyOrEnd []) toks = Some (After (VObject p) []).
Proof.
  intros Ok. simpl. destruct t as [| | | | | |v0]; simpl; try discriminate.
  - auto.
  - intros R. apply run_arrayish in R; [|now left].
    destruct R as [l R]. discriminate R.
  - destruct toks as [|x toks]; simpl; [|discriminate].
    intros [= ->]. destruct Ok.
Qed.

Lemma space_not_brace (ws : jsstring) :
  spaces ws -> ~ In 123%N ws /\ ~ In 125%N ws.
Proof.
  intros H. unfold spaces in H. rewrite Forall_forall in H.
  split; intros Hin; apply H in Hin; discriminate Hin.
Qed.

(** A text that parses to an object is that object's braces and what
    lies between them, with white space around, and the braces with what
    lies between them parse to the same object. *)
Lemma object_text_shape (text : jsstring) (props : list (jsstring * value)) :
  JSON.parse text = inr (VObject props) ->
  exists ws1 inner ws2,
    text = ws1 ++ 123%N :: inner ++ 125%N :: ws2 /\
    spaces ws1 /\ spaces ws2 /\
    JSON.parse (123%N :: inner ++ [125%N]) = inr (VObject props).
Proof.
  intros Hparse. pose proof Hparse as Hp. unfold parse in Hp.
  destruct (tokenize 0 text) as [toks|] eqn:T; [|discriminate].
  destruct (run (ExpectValue []) toks) as [[| | | | |v [|f s]]|] eqn:R;
    try discriminate.
  injection Hp as ->.
  pose proof T as Ok. apply tokenize_ok in Ok.
  destruct toks as [|t toks]; [discriminate R|].
  apply Forall_cons_iff in Ok as [Okt Ok].
  pose proof R as R0.
  apply run_opens_object in R; [|exact Okt]. destruct R as [-> R1].
  pose proof T as F. apply tokenize_first in F.
  destruct F as (ws1 & c & rest & n & -> & Hws1 & Hlex & Trest).
  apply lex_token_some in Hlex. destruct Hlex as (_ & Hl & _).
  destruct (Hl eq_refl) as [-> ->]. simpl in Trest.
  destruct (exists_last (l := toks)) as (toks' & tl & ->).
  { intros ->. discriminate R1. }
  rewrite run_snoc in R1.
  destruct (run (ExpectKeyOrEnd []) toks') as [st'|]; [|discriminate].
  apply Forall_app in Ok as [_ Oktl]. apply Forall_cons_iff in Oktl as [Oktl _].
  apply step_closes_object in R1; [|exact Oktl]. subst tl.
  destruct (@tokenize_last rest 0%nat _ toks' Trest eq_refl)
    as (pre & ws2 & -> & Hws2).
  exists ws1, pre, ws2. repeat split; try assumption.
  assert (T' : tokenize 0 (123%N :: pre ++ [125%N])
               = Some (TLBrace :: toks' ++ [TRBrace])).
  { apply (tokenize_trailing (123%N :: pre ++ [125%N]) Hws2).
    transitivity (tokenize 0 (ws1 ++ ((123%N :: pre ++ [125%N]) ++ ws2))).
    - symmetry. now apply tokenize_leading.
    - etransitivity; [|exact T]. do 2 f_equal. simpl.
      rewrite <- app_assoc. reflexivity. }
  unfold parse. rewrite T'. now rewrite R0.
Qed.

(** X20. A completion that holds one JSON object with prose around it,
    no opening brace before the object and no closing brace after it,
    is parsed to that object, and the normaliser answers as it does
    for the object alone. *)
Theorem X20_object_amid_prose (pre obj post : jsstring) (props : list (jsstring * value)) :
  JSON.parse obj = inr (VObject props) ->
  ~ In 123%N pre -> ~ In 125%N post ->
  try_parse (pre ++ obj ++ post) = inr (VObject props) /\
  normalizer (VString (pre ++ obj ++ post)) = respond (VObject props).
Proof.
  intros Hparse Hpre Hpost.
  destruct (object_text_shape obj Hparse)
    as (ws1 & inner & ws2 & Hobj & Hws1 & Hws2 & Hcore).
  assert (Span : brace_span (pre ++ obj ++ post) (123%N :: inner ++ [125%N])).
  { exists (pre ++ ws1), inner, (ws2 ++ post). repeat split.
    - rewrite Hobj, <- !app_assoc. simpl. rewrite <- app_assoc. reflexivity.
    - rewrite in_app_iff. intros [H | H]; [contradiction|].
      exact (proj1 (space_not_brace Hws1) H).
    - rewrite in_app_iff. intros [H | H]; [|contradiction].
      exact (proj2 (space_not_brace Hws2) H). }
  assert (P : try_parse (pre ++ obj ++ post) = inr (VObject props)).
  { unfold try_parse.
    destruct (match_braces _) as [m|] eqn:E;
      [apply match_braces_some in E
      |apply match_braces_none in E; destruct (brace_span_excludes Span E)].
    rewrite (brace_span_unique E Span). exact Hcore. }
  split; [exact P|].
  unfold normalizer. rewrite parse_block_recovered, P. unfold recovered.
  cbn [bind]. now destruct (respond (VObject props)).
Qed.

(** X20 at [Sure! Here is my answer: {...} Hope this helps.] *)
Lemma X20_object_amid_prose_witness :
  try_parse (preamble ++ glass_object ++ afterword) = inr (VObject glass_props) /\
  normalizer (VString (preamble ++ glass_object ++ afterword))
  = respond (VObject glass_props).
Proof.
  apply (@X20_object_amid_prose preamble glass_object afterword glass_props).
  - vm_compute. reflexivity.
  - vm_compute. intuition discriminate.
  - vm_compute. intuition discriminate.
Defined.
